(** * ThreeJS_VRproj: the keyboard control loop of [src/main.js]

    A shallow embedding of the per-frame update of the scene viewer:
    [updateCameraMovement], [updateLightMovement] (with its marker/helper
    synchronisation loop) and [animate], together with the part of
    three.js' [Vector3] that these functions call.  A call of
    [controls.update()] (three.js' [OrbitControls]) is represented by what
    it leaves in [camera.position], in the camera's direction and in
    [controls.target]; properties of frames hold for every such outcome.

    JavaScript numbers are kept abstract behind the interface [JsNumber],
    so that every function of the program is written once.  Two instances
    are given:
    - [JsNumber_R], exact real arithmetic, in which the quantified
      arithmetic properties are proved;
    - [JsNumber_float], IEEE 754 binary64 (the arithmetic JavaScript really
      uses), in which the program can be run on concrete inputs, NaN
      included.
    Properties that only move data around are proved for every instance.
    Where a property of distances or of sums of steps is exact in the
    reals only, section [Binary64] runs the program on inputs on which
    rounding shows.

    The second half covers the rest of the file: the key listeners, the
    panel (dropdown, sliders, colour picker), the loader callback that
    frames the model, and runs of the whole program as sequences of
    events. *)

From Stdlib Require Import ZArith Reals Lra Lia.
From Stdlib Require PrimFloat Uint63 SpecFloat FloatOps FloatAxioms.
From stdpp Require Import base option list strings.

(** ** JavaScript numbers *)

Class JsNumber (T : Type) := {
  lit : Z -> T;              (* an integer literal of the source *)
  num_add : T -> T -> T;     (* a + b *)
  num_sub : T -> T -> T;     (* a - b *)
  num_mul : T -> T -> T;     (* a * b *)
  num_div : T -> T -> T;     (* a / b *)
  num_sqrt : T -> T;         (* Math.sqrt(a) *)
  num_gt : T -> T -> bool;   (* a > b *)
  truthy : T -> bool;        (* ToBoolean(a), as used by [a || b] *)
}.

Declare Scope js_scope.
Delimit Scope js_scope with js.
Infix "+" := num_add : js_scope.
Infix "-" := num_sub : js_scope.
Infix "*" := num_mul : js_scope.
Infix "/" := num_div : js_scope.
Infix ">?" := num_gt (at level 70, no associativity) : js_scope.

(** [a || b] on numbers: [a] when it is truthy, otherwise [b]. *)
Definition num_or {T} `{JsNumber T} (a b : T) : T :=
  if truthy a then a else b.

(** Exact real arithmetic.  Every real other than 0 is truthy. *)
#[export] Instance JsNumber_R : JsNumber R := {
  lit := IZR;
  num_add := Rplus;
  num_sub := Rminus;
  num_mul := Rmult;
  num_div := Rdiv;
  num_sqrt := R_sqrt.sqrt;
  num_gt := fun a b => if Rlt_dec b a then true else false;
  truthy := fun a => if Req_dec_T a 0%R then false else true;
}.

(** IEEE 754 binary64.  0, -0 and NaN are falsy; every comparison with
    NaN is false. *)
Definition float_of_Z (n : Z) : PrimFloat.float :=
  if (n <? 0)%Z
  then PrimFloat.opp (PrimFloat.of_uint63 (Uint63.of_Z (- n)))
  else PrimFloat.of_uint63 (Uint63.of_Z n).

#[export] Instance JsNumber_float : JsNumber PrimFloat.float := {
  lit := float_of_Z;
  num_add := PrimFloat.add;
  num_sub := PrimFloat.sub;
  num_mul := PrimFloat.mul;
  num_div := PrimFloat.div;
  num_sqrt := PrimFloat.sqrt;
  num_gt := fun a b => PrimFloat.ltb b a;
  truthy := fun a => negb (PrimFloat.is_zero a || PrimFloat.is_nan a);
}.

(** ** three.js [Vector3]

    The methods below are those of three.js (a dependency, not part of the
    repository), written as pure functions on the receiver: a method that
    mutates [this] and returns it becomes a function returning the new
    value. *)
Module Vector3.
Section Defs.
Context {T : Type} `{JsNumber T}.
Local Open Scope js_scope.

Record t := mk { x : T; y : T; z : T }.

(* set(x, y, z) *)
Definition set (_ : t) (a b c : T) : t := mk a b c.

(* v.x = a, v.y = a, v.z = a *)
Definition setX (v : t) (a : T) : t := mk a (y v) (z v).
Definition setY (v : t) (a : T) : t := mk (x v) a (z v).
Definition setZ (v : t) (a : T) : t := mk (x v) (y v) a.

(* copy(v) *)
Definition copy (_ : t) (v : t) : t := mk (x v) (y v) (z v).

(* add(v), sub(v) *)
Definition add (u v : t) : t := mk (x u + x v) (y u + y v) (z u + z v).
Definition sub (u v : t) : t := mk (x u - x v) (y u - y v) (z u - z v).

(* multiplyScalar(s) *)
Definition multiplyScalar (v : t) (s : T) : t :=
  mk (x v * s) (y v * s) (z v * s).

(* divideScalar(s) { return this.multiplyScalar(1 / s) } *)
Definition divideScalar (v : t) (s : T) : t :=
  multiplyScalar v (lit 1 / s).

(* lengthSq() { return x*x + y*y + z*z } *)
Definition lengthSq (v : t) : T := x v * x v + y v * y v + z v * z v.

(* length() { return Math.sqrt(x*x + y*y + z*z) } *)
Definition length (v : t) : T := num_sqrt (lengthSq v).

(* normalize() { return this.divideScalar(this.length() || 1) } *)
Definition normalize (v : t) : t :=
  divideScalar v (num_or (length v) (lit 1)).

(* crossVectors(a, b) *)
Definition crossVectors (_ : t) (a b : t) : t :=
  mk (y a * z b - z a * y b)
     (z a * x b - x a * z b)
     (x a * y b - y a * x b).
End Defs.
Arguments t : clear implicits.
End Vector3.

(** ** Scene objects

    Only the fields that the control loop reads or writes, or that the
    properties below speak about, are kept. *)

(** [THREE.Color]. *)
Module Color.
Record t (T : Type) := mk { r : T; g : T; b : T }.
Arguments mk {T}.
Arguments r {T}.
Arguments g {T}.
Arguments b {T}.

(* copy(c) *)
Definition copy {T} (_ c : t T) : t T := mk (r c) (g c) (b c).
End Color.

(** [THREE.PointLight] (lines 79-81). *)
Module PointLight.
Record t (T : Type) := mk {
  position : Vector3.t T;
  intensity : T;
  distance : T;
  color : Color.t T;
}.
Arguments mk {T}.
Arguments position {T}.
Arguments intensity {T}.
Arguments distance {T}.
Arguments color {T}.

(* l.position = p, every other field kept *)
Definition set_position {T} (l : t T) (p : Vector3.t T) : t T :=
  mk p (intensity l) (distance l) (color l).
End PointLight.

(** The marker sphere, a [THREE.Mesh] with a [MeshBasicMaterial]
    (lines 85-90). *)
Module Mesh.
Record t (T : Type) := mk {
  position : Vector3.t T;
  material_color : Color.t T;
}.
Arguments mk {T}.
Arguments position {T}.
Arguments material_color {T}.

Definition set_position {T} (m : t T) (p : Vector3.t T) : t T :=
  mk p (material_color m).
End Mesh.

(** [THREE.PointLightHelper] (line 93).  three.js builds the helper with
    [this.light = light] and [this.matrix = light.matrixWorld], so its
    placement is the light's own matrix; the state of its own that
    [update()] refreshes is the wireframe colour:
    [update() { this.material.color.copy(this.light.color) }]
    (no colour override is passed at line 93). *)
Module PointLightHelper.
Record t (T : Type) := mk { material_color : Color.t T }.
Arguments mk {T}.
Arguments material_color {T}.

Definition update {T} (h : t T) (light : PointLight.t T) : t T :=
  mk (Color.copy (material_color h) (PointLight.color light)).
End PointLightHelper.

(** [THREE.PerspectiveCamera] (lines 23-29).  [worldDirection] is the
    vector that three.js' [getWorldDirection] reads off the camera's world
    matrix; the control loop never writes the camera's orientation. *)
Module Camera.
Record t (T : Type) := mk {
  position : Vector3.t T;
  up : Vector3.t T;
  worldDirection : Vector3.t T;
}.
Arguments mk {T}.
Arguments position {T}.
Arguments up {T}.
Arguments worldDirection {T}.

(* getWorldDirection(target): writes the direction into [target] *)
Definition getWorldDirection {T} (c : t T) (_ : Vector3.t T) : Vector3.t T :=
  worldDirection c.

Definition set_position {T} (c : t T) (p : Vector3.t T) : t T :=
  mk p (up c) (worldDirection c).
End Camera.

(** The [keys] object (lines 150-161). *)
Record Keys := mkKeys {
  KeyW : bool; KeyA : bool; KeyS : bool; KeyD : bool;
  ArrowUp : bool; ArrowDown : bool; ArrowLeft : bool; ArrowRight : bool;
  PageUp : bool; PageDown : bool;
}.

Definition noKeys : Keys :=
  mkKeys false false false false false false false false false false.

(** ** The module-level state of [main.js] *)
Record State (T : Type) := mkState {
  camera : Camera.t T;                        (* line 23 *)
  controls_target : Vector3.t T;              (* controls.target, line 32 *)
  lights : list (PointLight.t T);             (* line 63 *)
  lightSpheres : list (Mesh.t T);             (* line 64 *)
  lightHelpers : list (PointLightHelper.t T); (* line 65 *)
  keys : Keys;                                (* line 150 *)
  forward : Vector3.t T;                      (* line 171 *)
  right : Vector3.t T;                        (* line 172 *)
  moveDir : Vector3.t T;                      (* line 173 *)
  params_activeLight : Z;                     (* params.activeLight, line 200 *)
}.
Arguments mkState {T}.
Arguments camera {T}.
Arguments controls_target {T}.
Arguments lights {T}.
Arguments lightSpheres {T}.
Arguments lightHelpers {T}.
Arguments keys {T}.
Arguments forward {T}.
Arguments right {T}.
Arguments moveDir {T}.
Arguments params_activeLight {T}.

(** ** [OrbitControls] (lines 31-35)

    The controls belong to three.js.  They keep a state of their own:
    the rotation, pan and zoom requested by the mouse and, with
    [enableDamping] (line 33), what is left of them from earlier frames.
    From it a call of [controls.update()] rewrites [camera.position],
    turns the camera towards [controls.target] and may move the target.
    The three vectors it wrote are the outcome of the call; nothing here
    says which they are. *)
Record ControlsOutcome (T : Type) := mkControlsOutcome {
  new_position : Vector3.t T;    (* camera.position after the call *)
  new_direction : Vector3.t T;   (* the camera's world direction after it *)
  new_target : Vector3.t T;      (* controls.target after the call *)
}.
Arguments mkControlsOutcome {T}.
Arguments new_position {T}.
Arguments new_direction {T}.
Arguments new_target {T}.

Section Program.
Context {T : Type} `{JsNumber T}.
Local Open Scope js_scope.

Definition set_lights (s : State T) (ls : list (PointLight.t T)) : State T :=
  mkState (camera s) (controls_target s) ls (lightSpheres s) (lightHelpers s)
          (keys s) (forward s) (right s) (moveDir s) (params_activeLight s).

Definition set_proxies (s : State T) (sp : list (Mesh.t T))
    (hs : list (PointLightHelper.t T)) : State T :=
  mkState (camera s) (controls_target s) (lights s) sp hs
          (keys s) (forward s) (right s) (moveDir s) (params_activeLight s).

Definition set_scratch (s : State T) (f r m : Vector3.t T) : State T :=
  mkState (camera s) (controls_target s) (lights s) (lightSpheres s)
          (lightHelpers s) (keys s) f r m (params_activeLight s).

Definition set_view (s : State T) (p tg : Vector3.t T) : State T :=
  mkState (Camera.set_position (camera s) p) tg (lights s) (lightSpheres s)
          (lightHelpers s) (keys s) (forward s) (right s) (moveDir s)
          (params_activeLight s).

(** [a[i]] for a JavaScript array and an integer index: [undefined]
    (here [None]) below 0 and from [a.length] on. *)
Definition array_get {A} (a : list A) (i : Z) : option A :=
  if (i <? 0)%Z then None else a !! Z.to_nat i.

(** *** [updateCameraMovement] (lines 175-196) *)
Definition speed : T := lit 5.

Definition updateCameraMovement (delta : T) (s : State T) : State T :=
  let k := keys s in
  (* camera.getWorldDirection(forward); forward.y = 0; forward.normalize() *)
  let forward := Camera.getWorldDirection (camera s) (forward s) in
  let forward := Vector3.setY forward (lit 0) in
  let forward := Vector3.normalize forward in
  (* right.crossVectors(forward, camera.up).normalize() *)
  let right :=
    Vector3.normalize
      (Vector3.crossVectors (right s) forward (Camera.up (camera s))) in
  (* moveDir.set(0, 0, 0) and the four key tests *)
  let moveDir := Vector3.set (moveDir s) (lit 0) (lit 0) (lit 0) in
  let moveDir := if KeyW k then Vector3.add moveDir forward else moveDir in
  let moveDir := if KeyS k then Vector3.sub moveDir forward else moveDir in
  let moveDir := if KeyA k then Vector3.sub moveDir right else moveDir in
  let moveDir := if KeyD k then Vector3.add moveDir right else moveDir in
  if Vector3.lengthSq moveDir >? lit 0 then
    let moveDir :=
      Vector3.multiplyScalar (Vector3.normalize moveDir) (speed * delta) in
    set_scratch
      (set_view s
         (Vector3.add (Camera.position (camera s)) moveDir)
         (Vector3.add (controls_target s) moveDir))
      forward right moveDir
  else set_scratch s forward right moveDir.

(** *** [updateLightMovement] (lines 204-222) *)

(** Lines 210-215: the six key tests on the selected light [l]. *)
Definition moveLight (k : Keys) (lightSpeed : T) (p : Vector3.t T)
    : Vector3.t T :=
  let p := if ArrowUp k then Vector3.setZ p (Vector3.z p - lightSpeed) else p in
  let p := if ArrowDown k then Vector3.setZ p (Vector3.z p + lightSpeed) else p in
  let p := if ArrowLeft k then Vector3.setX p (Vector3.x p - lightSpeed) else p in
  let p := if ArrowRight k then Vector3.setX p (Vector3.x p + lightSpeed) else p in
  let p := if PageUp k then Vector3.setY p (Vector3.y p + lightSpeed) else p in
  let p := if PageDown k then Vector3.setY p (Vector3.y p - lightSpeed) else p in
  p.

(** Lines 219-220, the body of the loop at index [i].  [None] is the
    TypeError that JavaScript raises when [lightSpheres[i]] or
    [lightHelpers[i]] is [undefined]. *)
Definition syncBody (i : nat) (s : State T) : option (State T) :=
  l ← lights s !! i;
  sp ← lightSpheres s !! i;
  h ← lightHelpers s !! i;
  Some (set_proxies s
          (<[i := Mesh.set_position sp
                    (Vector3.copy (Mesh.position sp) (PointLight.position l))]>
             (lightSpheres s))
          (<[i := PointLightHelper.update h l]> (lightHelpers s))).

(** [for (let i = lo; i < lo + n; i++) body], stopping at the first
    exception. *)
Fixpoint forLoop (body : nat -> State T -> option (State T))
    (lo n : nat) (s : State T) : option (State T) :=
  match n with
  | O => Some s
  | S n' => s' ← body lo s; forLoop body (S lo) n' s'
  end.

(** Lines 218-221. *)
Definition syncLoop (s : State T) : option (State T) :=
  forLoop syncBody 0 (length (lights s)) s.

Definition updateLightMovement (delta : T) (s : State T)
    : option (State T) :=
  match array_get (lights s) (params_activeLight s) with
  | None => Some s                                    (* if (!l) return *)
  | Some l =>
      let lightSpeed := lit 4 * delta in
      let l := PointLight.set_position l
                 (moveLight (keys s) lightSpeed (PointLight.position l)) in
      syncLoop
        (set_lights s (<[Z.to_nat (params_activeLight s) := l]> (lights s)))
  end.

(** *** [controls.update()] (lines 36, 139 and 289)

    The call with outcome [o]: camera position, camera direction and
    look target are what the controls wrote; [camera.up], the lights,
    their markers and helpers, the key map, the scratch vectors and the
    selection are not theirs to write. *)
Definition controls_update (o : ControlsOutcome T) (s : State T)
    : State T :=
  mkState (Camera.mk (new_position o) (Camera.up (camera s))
                     (new_direction o))
          (new_target o)
          (lights s) (lightSpheres s) (lightHelpers s) (keys s)
          (forward s) (right s) (moveDir s) (params_activeLight s).

(** *** [animate] (lines 283-293)

    One frame: [delta] is the elapsed time returned by
    [clock.getDelta()] (line 284) and [o] the outcome of
    [controls.update()] (line 289).  An exception in
    [updateLightMovement] ends the frame before the controls are
    reached.  The render call and the rescheduling (lines 290-292) write
    nothing of the state. *)
Definition animate (delta : T) (o : ControlsOutcome T) (s : State T)
    : option (State T) :=
  controls_update o
    <$> updateLightMovement delta (updateCameraMovement delta s).

(** Consecutive frames, each with its elapsed time and the outcome of
    its [controls.update()], and no input event in between. *)
Fixpoint frames (fs : list (T * ControlsOutcome T)) (s : State T)
    : option (State T) :=
  match fs with
  | [] => Some s
  | (delta, o) :: fs => s' ← animate delta o s; frames fs s'
  end.

(** *** The state built by lines 29-96 and 150-201

    The camera's orientation is set by [OrbitControls] and is a
    parameter, [dir]. *)
Definition vec (a b c : Z) : Vector3.t T := Vector3.mk (lit a) (lit b) (lit c).

Definition initialPositions : list (Vector3.t T) :=
  [vec 0 3 0; vec 3 2 0; vec (-3) 2 0; vec 0 2 3; vec 0 2 (-3)].

Definition white : Color.t T := Color.mk (lit 1) (lit 1) (lit 1).

Definition initialState (dir : Vector3.t T) : State T :=
  mkState
    (Camera.mk (vec 5 5 10) (vec 0 1 0) dir)
    (vec 0 1 0)
    (map (fun p => PointLight.mk p (lit 5 / lit 2) (lit 40) white)
         initialPositions)
    (map (fun p => Mesh.mk p white) initialPositions)
    (map (fun _ => PointLightHelper.mk white) initialPositions)
    noKeys (vec 0 0 0) (vec 0 0 0) (vec 0 0 0) 0%Z.

(** *** Vocabulary of the properties *)

(** Marker [i] and helper [i] mirror light [i]. *)
Definition synced_at (s : State T) (i : nat) : Prop :=
  ∀ l, lights s !! i = Some l →
    ∃ sp h, lightSpheres s !! i = Some sp ∧ lightHelpers s !! i = Some h ∧
            Mesh.position sp = PointLight.position l ∧
            PointLightHelper.material_color h = PointLight.color l.

(** Every light has its marker and its helper, as after lines 78-96. *)
Definition rig_complete (s : State T) : Prop :=
  length (lights s) ≤ length (lightSpheres s) ∧
  length (lights s) ≤ length (lightHelpers s).

(** Every marker sphere is where its light is. *)
Definition mirrors (s : State T) : Prop :=
  ∀ i l, lights s !! i = Some l →
    ∃ sp, lightSpheres s !! i = Some sp ∧
          Mesh.position sp = PointLight.position l.

(** The three scratch vectors as [updateCameraMovement] computes them
    (lines 178-189), before [moveDir] is normalised and scaled. *)
Definition flatForward (s : State T) : Vector3.t T :=
  Vector3.normalize
    (Vector3.setY (Camera.getWorldDirection (camera s) (forward s)) (lit 0)).

Definition flatRight (s : State T) : Vector3.t T :=
  Vector3.normalize
    (Vector3.crossVectors (right s) (flatForward s) (Camera.up (camera s))).

Definition heldDirection (s : State T) : Vector3.t T :=
  let k := keys s in
  let m := Vector3.set (moveDir s) (lit 0) (lit 0) (lit 0) in
  let m := if KeyW k then Vector3.add m (flatForward s) else m in
  let m := if KeyS k then Vector3.sub m (flatForward s) else m in
  let m := if KeyA k then Vector3.sub m (flatRight s) else m in
  let m := if KeyD k then Vector3.add m (flatRight s) else m in
  m.

(** What one call of [updateCameraMovement] adds to the camera position
    and to the look target. *)
Definition displacement (delta : T) (s : State T) : Vector3.t T :=
  Vector3.sub (Camera.position (camera (updateCameraMovement delta s)))
              (Camera.position (camera s)).

Definition targetShift (delta : T) (s : State T) : Vector3.t T :=
  Vector3.sub (controls_target (updateCameraMovement delta s))
              (controls_target s).

(** The net request of a pair of opposite keys: 1, 0 or -1. *)
Definition axis (inc dec : bool) : Z :=
  match inc, dec with
  | true, false => 1
  | false, true => -1
  | _, _ => 0
  end.

(** The held state of the camera keys (W, A, S, D) and of the light keys
    (ArrowUp, ArrowDown, ArrowLeft, ArrowRight, PageUp, PageDown). *)
Definition movementKeys (k : Keys) : list bool :=
  [KeyW k; KeyA k; KeyS k; KeyD k].

Definition lightKeys (k : Keys) : list bool :=
  [ArrowUp k; ArrowDown k; ArrowLeft k; ArrowRight k; PageUp k; PageDown k].

(** Total time of a run of frames. *)
Definition elapsed (deltas : list T) : T := foldr num_add (lit 0) deltas.

(** [displacement] and [targetShift] summed over several calls of
    [updateCameraMovement], each given by its elapsed time and the state
    it is made in: what the calls add to the camera position and to the
    look target between them, whatever else writes the two in the
    meantime. *)
Definition totalDisplacement (calls : list (T * State T)) : Vector3.t T :=
  foldr (λ c acc, Vector3.add (displacement c.1 c.2) acc) (vec 0 0 0) calls.

Definition totalTargetShift (calls : list (T * State T)) : Vector3.t T :=
  foldr (λ c acc, Vector3.add (targetShift c.1 c.2) acc) (vec 0 0 0) calls.




(** [params.activeLight] selects one of the lights. *)
Definition active_in_range (s : State T) : Prop :=
  (0 ≤ params_activeLight s < Z.of_nat (length (lights s)))%Z.

(** The key map and the selection are written by the input listeners
    and by the panel, between frames. *)
Definition set_keys (s : State T) (k : Keys) : State T :=
  mkState (camera s) (controls_target s) (lights s) (lightSpheres s)
          (lightHelpers s) k (forward s) (right s) (moveDir s)
          (params_activeLight s).

Definition set_activeLight (s : State T) (a : Z) : State T :=
  mkState (camera s) (controls_target s) (lights s) (lightSpheres s)
          (lightHelpers s) (keys s) (forward s) (right s) (moveDir s) a.

(** *** Concrete states *)
Definition keysForward : Keys :=
  mkKeys true false false false false false false false false false.

Definition keysForwardRight : Keys :=
  mkKeys true false false true false false false false false false.

Definition keysForwardBack : Keys :=
  mkKeys true false true false false false false false false false.

Definition keysIncreaseX : Keys :=
  mkKeys false false false false false false false true false false.

Definition keysForwardIncreaseX : Keys :=
  mkKeys true false false false false false false true false false.

(** The initial scene seen along [dir], with keys [k] held and light
    [a] selected. *)
Definition scene (dir : Vector3.t T) (k : Keys) (a : Z) : State T :=
  set_activeLight (set_keys (initialState dir) k) a.

End Program.

(** A binary64 number that is +0, -0 or NaN: what the tests [x > 0] and
    [0 > x] both reject. *)
Definition zero_or_nan (f : PrimFloat.float) : Prop :=
  (∃ sign, FloatOps.Prim2SF f = SpecFloat.S754_zero sign) ∨
  FloatOps.Prim2SF f = SpecFloat.S754_nan.

(** ** The rest of [main.js]: listeners, panel, loader callback *)

(** [Math.max].  [Math.max(a, b, c)] scans its arguments from the left,
    which is [num_max (num_max a b) c]. *)
Class JsMath (T : Type) := {
  num_max : T -> T -> T;
}.

#[export] Instance JsMath_R : JsMath R := {
  num_max := Rmax;
}.

(** In binary64 [Math.max] is NaN as soon as one argument is, and takes
    +0 to be larger than -0. *)
Definition float_max (a b : PrimFloat.float) : PrimFloat.float :=
  if PrimFloat.is_nan a || PrimFloat.is_nan b then PrimFloat.nan
  else if PrimFloat.ltb a b then b
  else if PrimFloat.ltb b a then a
  else if PrimFloat.is_zero a && PrimFloat.get_sign a then b
  else a.

#[export] Instance JsMath_float : JsMath PrimFloat.float := {
  num_max := float_max;
}.

(** [THREE.Box3], as far as the loader callback uses it. *)
Module Box3.
Section Defs.
Context {T : Type} `{JsNumber T}.
Local Open Scope js_scope.

Record t := mk { min : Vector3.t T; max : Vector3.t T }.

(* isEmpty() { return max.x < min.x || max.y < min.y || max.z < min.z } *)
Definition isEmpty (b : t) : bool :=
  (Vector3.x (min b) >? Vector3.x (max b))
  || (Vector3.y (min b) >? Vector3.y (max b))
  || (Vector3.z (min b) >? Vector3.z (max b)).

(* getSize(target) {
     return this.isEmpty() ? target.set(0, 0, 0)
                           : target.subVectors(this.max, this.min) } *)
Definition getSize (b : t) (target : Vector3.t T) : Vector3.t T :=
  if isEmpty b then Vector3.set target (lit 0) (lit 0) (lit 0)
  else Vector3.sub (max b) (min b).

(* getCenter(target) {
     return this.isEmpty() ? target.set(0, 0, 0)
       : target.addVectors(this.min, this.max).multiplyScalar(0.5) } *)
Definition getCenter (b : t) (target : Vector3.t T) : Vector3.t T :=
  if isEmpty b then Vector3.set target (lit 0) (lit 0) (lit 0)
  else Vector3.multiplyScalar (Vector3.add (min b) (max b)) (lit 1 / lit 2).
End Defs.
Arguments t : clear implicits.
End Box3.

(** The fields of a light that the panel binds a slider to
    (lines 252-257). *)
Inductive LightField := PosX | PosY | PosZ | Intensity | Distance.

(** What can happen between two frames, and the frame itself. *)
Inductive Event (T : Type) :=
| KeyDown (code : string)                       (* lines 163-165 *)
| KeyUp (code : string)                         (* lines 167-169 *)
| Frame (delta : T) (o : ControlsOutcome T)     (* animate, lines 283-293 *)
| PickLight (name : string)                     (* dropdown, lines 234-243 *)
| PanelNumber (i : nat) (f : LightField) (v : T) (* sliders, lines 252-257 *)
| PanelColor (i : nat) (hex : Z)                (* picker, lines 258-264 *)
| ModelLoaded (box : Box3.t T) (dir : Vector3.t T)
              (o : ControlsOutcome T)           (* lines 106-140 *)
| Orbit (p dir tg : Vector3.t T).               (* OrbitControls, line 31 *)
Arguments KeyDown {T}.
Arguments KeyUp {T}.
Arguments Frame {T}.
Arguments PickLight {T}.
Arguments PanelNumber {T}.
Arguments PanelColor {T}.
Arguments ModelLoaded {T}.
Arguments Orbit {T}.

Section Handlers.
Context {T : Type} `{JsNumber T} `{JsMath T}.
Local Open Scope js_scope.

(** *** The key listeners (lines 163-169) *)

(** The own properties of [keys]. *)
Definition keyNames : list string :=
  ["KeyW"; "KeyA"; "KeyS"; "KeyD"; "ArrowUp"; "ArrowDown"; "ArrowLeft";
   "ArrowRight"; "PageUp"; "PageDown"].

(** [code in keys], for the codes a keyboard event carries.  (A name
    inherited from [Object.prototype] would pass the test too; the
    assignment then adds a property of that name and leaves the ten flags
    alone, which is what [key_set] does for it.) *)
Definition key_in (code : string) : bool := bool_decide (code ∈ keyNames).

(** [keys[code]] for one of the ten flags. *)
Definition key_get (k : Keys) (code : string) : option bool :=
  if decide (code = "KeyW") then Some (KeyW k)
  else if decide (code = "KeyA") then Some (KeyA k)
  else if decide (code = "KeyS") then Some (KeyS k)
  else if decide (code = "KeyD") then Some (KeyD k)
  else if decide (code = "ArrowUp") then Some (ArrowUp k)
  else if decide (code = "ArrowDown") then Some (ArrowDown k)
  else if decide (code = "ArrowLeft") then Some (ArrowLeft k)
  else if decide (code = "ArrowRight") then Some (ArrowRight k)
  else if decide (code = "PageUp") then Some (PageUp k)
  else if decide (code = "PageDown") then Some (PageDown k)
  else None.

(** [keys[code] = v]. *)
Definition key_set (k : Keys) (code : string) (v : bool) : Keys :=
  if decide (code = "KeyW") then
    mkKeys v (KeyA k) (KeyS k) (KeyD k) (ArrowUp k) (ArrowDown k)
           (ArrowLeft k) (ArrowRight k) (PageUp k) (PageDown k)
  else if decide (code = "KeyA") then
    mkKeys (KeyW k) v (KeyS k) (KeyD k) (ArrowUp k) (ArrowDown k)
           (ArrowLeft k) (ArrowRight k) (PageUp k) (PageDown k)
  else if decide (code = "KeyS") then
    mkKeys (KeyW k) (KeyA k) v (KeyD k) (ArrowUp k) (ArrowDown k)
           (ArrowLeft k) (ArrowRight k) (PageUp k) (PageDown k)
  else if decide (code = "KeyD") then
    mkKeys (KeyW k) (KeyA k) (KeyS k) v (ArrowUp k) (ArrowDown k)
           (ArrowLeft k) (ArrowRight k) (PageUp k) (PageDown k)
  else if decide (code = "ArrowUp") then
    mkKeys (KeyW k) (KeyA k) (KeyS k) (KeyD k) v (ArrowDown k)
           (ArrowLeft k) (ArrowRight k) (PageUp k) (PageDown k)
  else if decide (code = "ArrowDown") then
    mkKeys (KeyW k) (KeyA k) (KeyS k) (KeyD k) (ArrowUp k) v
           (ArrowLeft k) (ArrowRight k) (PageUp k) (PageDown k)
  else if decide (code = "ArrowLeft") then
    mkKeys (KeyW k) (KeyA k) (KeyS k) (KeyD k) (ArrowUp k) (ArrowDown k)
           v (ArrowRight k) (PageUp k) (PageDown k)
  else if decide (code = "ArrowRight") then
    mkKeys (KeyW k) (KeyA k) (KeyS k) (KeyD k) (ArrowUp k) (ArrowDown k)
           (ArrowLeft k) v (PageUp k) (PageDown k)
  else if decide (code = "PageUp") then
    mkKeys (KeyW k) (KeyA k) (KeyS k) (KeyD k) (ArrowUp k) (ArrowDown k)
           (ArrowLeft k) (ArrowRight k) v (PageDown k)
  else if decide (code = "PageDown") then
    mkKeys (KeyW k) (KeyA k) (KeyS k) (KeyD k) (ArrowUp k) (ArrowDown k)
           (ArrowLeft k) (ArrowRight k) (PageUp k) v
  else k.

(* if (e.code in keys) keys[e.code] = true *)
Definition keydown (code : string) (s : State T) : State T :=
  if key_in code then set_keys s (key_set (keys s) code true) else s.

(* if (e.code in keys) keys[e.code] = false *)
Definition keyup (code : string) (s : State T) : State T :=
  if key_in code then set_keys s (key_set (keys s) code false) else s.

(** *** The panel (lines 227-267) *)

(** Lines 234-240. *)
Definition lightNames : list (string * Z) :=
  [("Light 1", 0%Z); ("Light 2", 1%Z); ("Light 3", 2%Z); ("Light 4", 3%Z);
   ("Light 5", 4%Z)].

Fixpoint option_value (names : list (string * Z)) (name : string)
    : option Z :=
  match names with
  | [] => None
  | (n, v) :: rest => if decide (name = n) then Some v
                      else option_value rest name
  end.

(** Lines 241-243: choosing the entry [name] of the dropdown writes its
    value into [params.activeLight]; the dropdown has no other entry. *)
Definition pickLight (name : string) (s : State T) : State T :=
  match option_value lightNames name with
  | Some a => set_activeLight s a
  | None => s
  end.

Definition write_field (f : LightField) (v : T) (l : PointLight.t T)
    : PointLight.t T :=
  match f with
  | PosX => PointLight.set_position l (Vector3.setX (PointLight.position l) v)
  | PosY => PointLight.set_position l (Vector3.setY (PointLight.position l) v)
  | PosZ => PointLight.set_position l (Vector3.setZ (PointLight.position l) v)
  | Intensity =>
      PointLight.mk (PointLight.position l) v (PointLight.distance l)
                    (PointLight.color l)
  | Distance =>
      PointLight.mk (PointLight.position l) (PointLight.intensity l) v
                    (PointLight.color l)
  end.

(** Lines 252-257: the slider of field [f] in the folder of light [i]
    writes a number into that field.  Which number lil-gui hands over
    (after clamping and snapping to the step) is left open: [v] is any
    number.  There is a folder for each light only. *)
Definition panelNumber (i : nat) (f : LightField) (v : T) (s : State T)
    : State T :=
  match lights s !! i with
  | None => s
  | Some l => set_lights s (<[i := write_field f v l]> (lights s))
  end.

(** three.js [Color.set(value)] for a number, in the releases that
    still have [outputEncoding] (line 15), where no colour-space
    conversion follows:
    [setHex(hex) { r = (hex >> 16 & 255) / 255; g = (hex >> 8 & 255) / 255;
                   b = (hex & 255) / 255 }].
    The properties below use only that light and marker receive the same
    colour. *)
Definition Color_setHex (hex : Z) : Color.t T :=
  Color.mk (lit (Z.land (Z.shiftr hex 16) 255) / lit 255)
           (lit (Z.land (Z.shiftr hex 8) 255) / lit 255)
           (lit (Z.land hex 255) / lit 255).

(** Lines 261-264, the [onChange] handler of the colour picker in the
    folder of light [i]:
    [light.color.set(value); lightSpheres[i].material.color.set(value)].
    [None] is the TypeError raised when [lightSpheres[i]] is
    [undefined]. *)
Definition colorChanged (i : nat) (hex : Z) (s : State T)
    : option (State T) :=
  match lights s !! i with
  | None => Some s
  | Some l =>
      let l := PointLight.mk (PointLight.position l) (PointLight.intensity l)
                 (PointLight.distance l) (Color_setHex hex) in
      let s := set_lights s (<[i := l]> (lights s)) in
      sp ← lightSpheres s !! i;
      Some (set_proxies s
              (<[i := Mesh.mk (Mesh.position sp) (Color_setHex hex)]>
                 (lightSpheres s))
              (lightHelpers s))
  end.

(** *** The loader callback, lines 125-138

    The state in which the callback reaches its last statement,
    [controls.update()] (line 139): the camera position and the look
    target as lines 132-138 wrote them.  [box] is the bounding box that
    [setFromObject(modelRoot)] returns and [dir] the world direction
    that [camera.lookAt(center)] leaves the camera with.  The whole
    callback is [frameModel] followed by [controls_update], see
    [step]. *)
Definition frameModel (box : Box3.t T) (dir : Vector3.t T) (s : State T)
    : State T :=
  let size := Box3.getSize box (vec 0 0 0) in
  let center := Box3.getCenter box (vec 0 0 0) in
  let maxDim :=
    num_max (num_max (Vector3.x size) (Vector3.y size)) (Vector3.z size) in
  let dist := maxDim * (lit 9 / lit 5) in
  let p := Vector3.mk (Vector3.x center + dist) (Vector3.y center + dist)
                      (Vector3.z center + dist) in
  mkState (Camera.mk (Vector3.copy (Camera.position (camera s)) p)
                     (Camera.up (camera s)) dir)
          (Vector3.copy (controls_target s) center)
          (lights s) (lightSpheres s) (lightHelpers s) (keys s)
          (forward s) (right s) (moveDir s) (params_activeLight s).

(** A mouse, wheel or touch gesture handled by the listeners of
    [OrbitControls] between two frames, or the call of
    [controls.update()] during start-up (line 36): it may put the camera
    and the look target anywhere and turn the camera any way; it leaves
    [camera.up] and everything else alone. *)
Definition orbit (p dir tg : Vector3.t T) (s : State T) : State T :=
  mkState (Camera.mk p (Camera.up (camera s)) dir) tg
          (lights s) (lightSpheres s) (lightHelpers s) (keys s)
          (forward s) (right s) (moveDir s) (params_activeLight s).

(** *** Runs of the program *)

(** One event; [None] is an uncaught exception in its handler. *)
Definition step (e : Event T) (s : State T) : option (State T) :=
  match e with
  | KeyDown code => Some (keydown code s)
  | KeyUp code => Some (keyup code s)
  | Frame delta o => animate delta o s
  | PickLight name => Some (pickLight name s)
  | PanelNumber i f v => Some (panelNumber i f v s)
  | PanelColor i hex => colorChanged i hex s
  | ModelLoaded box dir o => Some (controls_update o (frameModel box dir s))
  | Orbit p dir tg => Some (orbit p dir tg s)
  end.

Fixpoint run (es : list (Event T)) (s : State T) : option (State T) :=
  match es with
  | [] => Some s
  | e :: es => s' ← step e s; run es s'
  end.

(** The states the program can be in: those a run leads to from the
    state built at start-up. *)
Definition reachable (s : State T) : Prop :=
  ∃ dir es, run es (initialState dir) = Some s.

(** The pressed flag of the last event of [es] that concerns [code]. *)
Definition lastPress (code : string) (es : list (Event T)) : option bool :=
  foldl (λ acc e,
           match e with
           | KeyDown c => if decide (c = code) then Some true else acc
           | KeyUp c => if decide (c = code) then Some false else acc
           | _ => acc
           end) None es.

(** Marker [i] shows the colour of light [i]. *)
Definition marker_colour_at (s : State T) (i : nat) : Prop :=
  ∀ l, lights s !! i = Some l →
    ∃ sp, lightSpheres s !! i = Some sp ∧
          Mesh.material_color sp = PointLight.color l.

(** The five lights with their markers and helpers, and a selection
    among them. *)
Definition rig_of_five (s : State T) : Prop :=
  length (lights s) = 5%nat ∧ length (lightSpheres s) = 5%nat ∧
  length (lightHelpers s) = 5%nat ∧
  (0 ≤ params_activeLight s < 5)%Z.

(** What every state of a run satisfies. *)
Definition scene_invariant (s : State T) : Prop :=
  rig_of_five s ∧ (∀ i, marker_colour_at s i) ∧
  Camera.up (camera s) = vec 0 1 0.

(** No key of the map is held. *)
Definition idle (k : Keys) : Prop :=
  movementKeys k = [false; false; false; false] ∧
  lightKeys k = [false; false; false; false; false; false].

(** The two navigators of a frame (lines 286-287) leave camera, look
    target and lights as they were and end with every marker on its
    light, so that [controls.update()] (line 289) is all the frame does to
    the camera and to the look target. *)
Definition navigators_move_nothing (delta : T) (s : State T) : Prop :=
  ∃ s0, updateLightMovement delta (updateCameraMovement delta s) = Some s0 ∧
        camera s0 = camera s ∧ controls_target s0 = controls_target s ∧
        lights s0 = lights s ∧
        (active_in_range s → mirrors s0) ∧
        ∀ o, animate delta o s = Some (controls_update o s0).

(** The state with the camera turned to [dir], everything else kept. *)
Definition turned (dir : Vector3.t T) (s : State T) : State T :=
  orbit (Camera.position (camera s)) dir (controls_target s) s.

(** The camera's velocity: what [updateCameraMovement] adds to position
    and target per second. *)
Definition velocity (s : State T) : Vector3.t T :=
  if Vector3.lengthSq (heldDirection s) >? lit 0
  then Vector3.multiplyScalar (Vector3.normalize (heldDirection s)) speed
  else vec 0 0 0.

(** The lights after the light keys were held for [t] seconds. *)
Definition lightsAfter (t : T) (s : State T) : list (PointLight.t T) :=
  match array_get (lights s) (params_activeLight s) with
  | None => lights s
  | Some l =>
      <[Z.to_nat (params_activeLight s) :=
          PointLight.set_position l
            (moveLight (keys s) (lit 4 * t) (PointLight.position l))]>
        (lights s)
  end.

(** The markers and helpers that mirror the lights [ls]: position and
    helper colour taken from the light of the same index, marker colour
    kept; a marker or helper without a light is kept as it is. *)
Definition mirror_marker (ls : list (PointLight.t T)) (i : nat)
    (sp : Mesh.t T) : Mesh.t T :=
  match ls !! i with
  | Some l => Mesh.mk (PointLight.position l) (Mesh.material_color sp)
  | None => sp
  end.

Definition mirror_helper (ls : list (PointLight.t T)) (i : nat)
    (h : PointLightHelper.t T) : PointLightHelper.t T :=
  match ls !! i with
  | Some l => PointLightHelper.mk (PointLight.color l)
  | None => h
  end.

(** The markers and the helpers after the light keys were held for [t]
    seconds: brought in line with the lights if a light is selected, left
    alone if none is. *)
Definition markersAfter (t : T) (s : State T) : list (Mesh.t T) :=
  match array_get (lights s) (params_activeLight s) with
  | None => lightSpheres s
  | Some _ => imap (mirror_marker (lightsAfter t s)) (lightSpheres s)
  end.

Definition helpersAfter (t : T) (s : State T)
    : list (PointLightHelper.t T) :=
  match array_get (lights s) (params_activeLight s) with
  | None => lightHelpers s
  | Some _ => imap (mirror_helper (lightsAfter t s)) (lightHelpers s)
  end.

(** The light rig of [s'] is that of [s] after the light keys it holds
    were held for [t] seconds: the selected light moved by the light
    keys, markers and helpers brought in line, keys and selection kept.
    Nothing is said of the camera and of the look target, which
    [controls.update()] writes last in every frame. *)
Definition rigAdvanced (t : T) (s s' : State T) : Prop :=
  keys s' = keys s ∧
  params_activeLight s' = params_activeLight s ∧
  lights s' = lightsAfter t s ∧
  lightSpheres s' = markersAfter t s ∧
  lightHelpers s' = helpersAfter t s.
End Handlers.

(** * Properties *)

(** ** The synchronisation loop, for every number type *)
Section Sync.
Context {T : Type} `{JsNumber T}.

Lemma set_proxies_id (s : State T) :
  set_proxies s (lightSpheres s) (lightHelpers s) = s.
Proof. by destruct s. Qed.

Lemma Vector3_copy_eq (u v : Vector3.t T) : Vector3.copy u v = v.
Proof. by destruct v. Qed.

Lemma Color_copy_eq (c d : Color.t T) : Color.copy c d = d.
Proof. by destruct d. Qed.

Lemma syncBody_Some i (s s' : State T) :
  syncBody i s = Some s' →
  ∃ l sp h,
    lights s !! i = Some l ∧ lightSpheres s !! i = Some sp ∧
    lightHelpers s !! i = Some h ∧
    s' = set_proxies s
           (<[i := Mesh.mk (PointLight.position l) (Mesh.material_color sp)]>
              (lightSpheres s))
           (<[i := PointLightHelper.mk (PointLight.color l)]> (lightHelpers s)).
Proof.
  unfold syncBody. intros Hs.
  destruct (lights s !! i) as [l|] eqn:El; [|done].
  destruct (lightSpheres s !! i) as [sp|] eqn:Es; [|done].
  destruct (lightHelpers s !! i) as [h|] eqn:Eh; [|done].
  cbn in Hs. injection Hs as <-. exists l, sp, h.
  unfold Mesh.set_position, PointLightHelper.update.
  by rewrite Vector3_copy_eq, Color_copy_eq.
Qed.

Lemma syncBody_total i (s : State T) :
  i < length (lights s) → i < length (lightSpheres s) →
  i < length (lightHelpers s) → is_Some (syncBody i s).
Proof.
  intros Hl Hs Hh. unfold syncBody.
  destruct (lookup_lt_is_Some_2 _ _ Hl) as [l ->].
  destruct (lookup_lt_is_Some_2 _ _ Hs) as [sp ->].
  destruct (lookup_lt_is_Some_2 _ _ Hh) as [h ->].
  by eexists.
Qed.

(** What the loop over [lo, lo + n) leaves behind. *)
Lemma forLoop_syncBody n : ∀ lo (s s' : State T),
  forLoop syncBody lo n s = Some s' →
  s' = set_proxies s (lightSpheres s') (lightHelpers s') ∧
  length (lightSpheres s') = length (lightSpheres s) ∧
  length (lightHelpers s') = length (lightHelpers s) ∧
  (∀ i, lo ≤ i < lo + n → synced_at s' i) ∧
  (∀ i, i < lo ∨ lo + n ≤ i →
     lightSpheres s' !! i = lightSpheres s !! i ∧
     lightHelpers s' !! i = lightHelpers s !! i) ∧
  (∀ i sp', lightSpheres s' !! i = Some sp' →
     ∃ sp, lightSpheres s !! i = Some sp ∧
           Mesh.material_color sp' = Mesh.material_color sp).
Proof.
  induction n as [|n IH]; intros lo s s' Hrun; cbn in Hrun.
  - injection Hrun as <-. rewrite set_proxies_id.
    repeat split; try done; [lia | eauto].
  - destruct (syncBody lo s) as [s1|] eqn:Hb; [|done]. cbn in Hrun.
    apply syncBody_Some in Hb as (l & sp & h & Hl & Hsp & Hh & ->).
    apply IH in Hrun as (Hfr & Hls & Hlh & Hin & Hout & Hcol).
    cbn in Hfr, Hls, Hlh, Hout, Hcol.
    rewrite length_insert in Hls. rewrite length_insert in Hlh.
    repeat split; try done.
    + intros i Hi. destruct (decide (i = lo)) as [->|Hne].
      * intros l' Hl'. rewrite Hfr in Hl'. cbn in Hl'.
        rewrite Hl in Hl'. injection Hl' as <-.
        destruct (Hout lo) as [Hs' Hh']; [lia|].
        rewrite list_lookup_insert_eq in Hs' by eauto using lookup_lt_Some.
        rewrite list_lookup_insert_eq in Hh' by eauto using lookup_lt_Some.
        eauto 10.
      * apply Hin. lia.
    + destruct (Hout i) as [-> _]; [lia|].
      apply list_lookup_insert_ne. lia.
    + destruct (Hout i) as [_ ->]; [lia|].
      apply list_lookup_insert_ne. lia.
    + intros i sp' Hi. apply Hcol in Hi as (sp0 & Hi & ->).
      destruct (decide (i = lo)) as [->|Hne].
      * rewrite list_lookup_insert_eq in Hi by eauto using lookup_lt_Some.
        injection Hi as <-. eauto.
      * rewrite list_lookup_insert_ne in Hi by done. eauto.
Qed.

Lemma forLoop_syncBody_total n : ∀ lo (s : State T),
  lo + n ≤ length (lights s) → lo + n ≤ length (lightSpheres s) →
  lo + n ≤ length (lightHelpers s) →
  is_Some (forLoop syncBody lo n s).
Proof.
  induction n as [|n IH]; intros lo s Hl Hs Hh; cbn; [by eexists|].
  destruct (syncBody_total lo s) as [s1 Hb]; [lia..|]. rewrite Hb. cbn.
  apply syncBody_Some in Hb as (l & sp & h & _ & _ & _ & ->).
  apply IH; cbn; rewrite ?length_insert; lia.
Qed.

(** A loop over indices that are already in sync changes nothing. *)
Lemma syncBody_synced i (s : State T) :
  i < length (lights s) → synced_at s i → syncBody i s = Some s.
Proof.
  intros Hi Hsy. destruct (lookup_lt_is_Some_2 _ _ Hi) as [l Hl].
  destruct (Hsy l Hl) as (sp & h & Hsp & Hh & Hp & Hc).
  unfold syncBody. rewrite Hl, Hsp, Hh. cbn. f_equal.
  unfold Mesh.set_position, PointLightHelper.update.
  rewrite Vector3_copy_eq, Color_copy_eq, <- Hp, <- Hc.
  destruct sp, h; cbn. rewrite !list_insert_id by done.
  apply set_proxies_id.
Qed.

Lemma forLoop_synced n : ∀ lo (s : State T),
  lo + n ≤ length (lights s) →
  (∀ i, lo ≤ i < lo + n → synced_at s i) →
  forLoop syncBody lo n s = Some s.
Proof.
  induction n as [|n IH]; intros lo s Hl Hsy; cbn; [done|].
  rewrite syncBody_synced by (try apply Hsy; lia). cbn.
  apply IH; [lia|]. intros i Hi. apply Hsy. lia.
Qed.
End Sync.

(** ** [updateLightMovement], for every number type *)
Section LightNavigator.
Context {T : Type} `{JsNumber T}.

Lemma array_get_Some {A} (a : list A) (i : Z) :
  (0 ≤ i < Z.of_nat (length a))%Z →
  ∃ v, array_get a i = Some v ∧ a !! Z.to_nat i = Some v.
Proof.
  intros Hi. unfold array_get.
  destruct (Z.ltb_spec i 0) as [?|_]; [lia|].
  destruct (lookup_lt_is_Some_2 a (Z.to_nat i)) as [v Hv]; [lia|]. eauto.
Qed.

Lemma array_get_None {A} (a : list A) (i : Z) :
  (i < 0 ∨ Z.of_nat (length a) ≤ i)%Z → array_get a i = None.
Proof.
  intros Hi. unfold array_get.
  destruct (Z.ltb_spec i 0) as [?|?]; [done|].
  apply lookup_ge_None. lia.
Qed.

(** Line 206: with no light selected the function returns at once. *)
Lemma updateLightMovement_return (delta : T) (s : State T) :
  ¬ active_in_range s → updateLightMovement delta s = Some s.
Proof.
  intros Hout. unfold updateLightMovement.
  rewrite array_get_None; [done|]. unfold active_in_range in Hout. lia.
Qed.

(** With a light selected, the function is its edit followed by the
    synchronisation loop. *)
Lemma updateLightMovement_selected (delta : T) (s : State T) :
  active_in_range s →
  ∃ l, lights s !! Z.to_nat (params_activeLight s) = Some l ∧
       updateLightMovement delta s =
       syncLoop (set_lights s
         (<[Z.to_nat (params_activeLight s) :=
              PointLight.set_position l
                (moveLight (keys s) (lit 4 * delta)%js (PointLight.position l))]>
            (lights s))).
Proof.
  intros Hin. unfold updateLightMovement.
  destruct (array_get_Some (lights s) _ Hin) as (l & -> & Hl). eauto.
Qed.

Lemma syncLoop_total (s : State T) :
  rig_complete s → is_Some (syncLoop s).
Proof. intros [? ?]. apply forLoop_syncBody_total; lia. Qed.

(** After the loop every marker and helper mirrors its light, only the
    marker and helper arrays have changed, and a second run changes
    nothing. *)
Lemma syncLoop_spec (s s' : State T) :
  syncLoop s = Some s' →
  s' = set_proxies s (lightSpheres s') (lightHelpers s') ∧
  (∀ i, synced_at s' i) ∧
  syncLoop s' = Some s'.
Proof.
  intros Hrun. unfold syncLoop in *.
  destruct (forLoop_syncBody _ _ _ _ Hrun) as (Hfr & _ & _ & Hin & _).
  assert (Hl : lights s' = lights s) by (rewrite Hfr; done).
  assert (Hall : ∀ i, synced_at s' i).
  { intros i. destruct (decide (i < length (lights s))) as [Hi|Hi].
    - apply Hin. lia.
    - intros l Hli. apply lookup_lt_Some in Hli. rewrite Hl in Hli. lia. }
  repeat split; try done.
  apply forLoop_synced; [lia | auto].
Qed.


(** [controls.update()] leaves the light rig alone. *)
Lemma controls_update_synced (o : ControlsOutcome T) (s : State T) i :
  synced_at s i → synced_at (controls_update o s) i.
Proof. done. Qed.

Lemma updateCameraMovement_rig (delta : T) (s : State T) :
  lights (updateCameraMovement delta s) = lights s ∧
  lightSpheres (updateCameraMovement delta s) = lightSpheres s ∧
  lightHelpers (updateCameraMovement delta s) = lightHelpers s ∧
  keys (updateCameraMovement delta s) = keys s ∧
  params_activeLight (updateCameraMovement delta s) = params_activeLight s.
Proof. unfold updateCameraMovement. by case num_gt. Qed.

(** [updateLightMovement] writes the three rig arrays only, and keeps
    their lengths. *)
Lemma updateLightMovement_frame (delta : T) (s s' : State T) :
  updateLightMovement delta s = Some s' →
  s' = set_proxies (set_lights s (lights s'))
         (lightSpheres s') (lightHelpers s') ∧
  length (lights s') = length (lights s) ∧
  length (lightSpheres s') = length (lightSpheres s) ∧
  length (lightHelpers s') = length (lightHelpers s).
Proof.
  unfold updateLightMovement.
  destruct (array_get _ _) as [l|].
  - intros Hrun. unfold syncLoop in Hrun.
    apply forLoop_syncBody in Hrun as (Hfr & Hs & Hh & _).
    cbn in Hfr, Hs, Hh.
    assert (Hl : lights s' =
                 <[Z.to_nat (params_activeLight s) :=
                     PointLight.set_position l
                       (moveLight (keys s) (lit 4 * delta)%js
                          (PointLight.position l))]> (lights s))
      by (rewrite Hfr; done).
    rewrite Hl. repeat split; try done. apply length_insert.
  - intros [= <-]. by destruct s.
Qed.

Lemma updateLightMovement_total (delta : T) (s : State T) :
  rig_complete s → is_Some (updateLightMovement delta s).
Proof.
  intros Hrig. unfold updateLightMovement.
  destruct (array_get _ _) as [l|]; [|by eexists].
  apply syncLoop_total. destruct Hrig.
  split; cbn; rewrite length_insert; done.
Qed.

(** The whole effect of a call with a light selected. *)
Lemma updateLightMovement_effect (delta : T) (s : State T) :
  rig_complete s → active_in_range s →
  ∃ l s',
    lights s !! Z.to_nat (params_activeLight s) = Some l ∧
    updateLightMovement delta s = Some s' ∧
    s' = set_proxies
           (set_lights s
              (<[Z.to_nat (params_activeLight s) :=
                   PointLight.set_position l
                     (moveLight (keys s) (lit 4 * delta)%js
                        (PointLight.position l))]> (lights s)))
           (lightSpheres s') (lightHelpers s') ∧
    (∀ i, synced_at s' i) ∧
    syncLoop s' = Some s'.
Proof.
  intros [Hs Hh] Hin.
  destruct (updateLightMovement_selected delta s Hin) as (l & Hl & ->).
  match goal with |- context [syncLoop ?st] => set (s1 := st) end.
  destruct (syncLoop_total s1) as [s' Hrun].
  { subst s1. split; cbn; rewrite length_insert; done. }
  destruct (syncLoop_spec _ _ Hrun) as (Hfr & Hsy & Hid).
  exists l, s'. by rewrite Hrun.
Qed.

Lemma synced_mirrors (s : State T) : (∀ i, synced_at s i) → mirrors s.
Proof.
  intros Hsy i l Hl. destruct (Hsy i l Hl) as (sp & h & ? & ? & ? & ?). eauto.
Qed.



(** C5. With the selection out of range (for instance -1, or 5 on the
    rig of five lights) a call of [updateLightMovement] raises nothing
    and leaves every light as it was: position, intensity, distance and
    colour, whatever keys are held and whatever the elapsed time. *)
Theorem out_of_range_selection_leaves_lights (delta : T) (s : State T) :
  (params_activeLight s < 0 ∨
   Z.of_nat (length (lights s)) ≤ params_activeLight s)%Z →
  ∃ s', updateLightMovement delta s = Some s' ∧ lights s' = lights s.
Proof.
  intros Hout. exists s. split; [|done].
  apply updateLightMovement_return. unfold active_in_range. lia.
Qed.

(** C6. With a light selected, a call of [updateLightMovement] returns
    and changes at most the position of that light: every light keeps
    its intensity, distance and colour, and every other light keeps its
    position as well. *)
Theorem selected_light_position_only (delta : T) (s : State T) :
  rig_complete s → active_in_range s →
  ∃ s', updateLightMovement delta s = Some s' ∧
        length (lights s') = length (lights s) ∧
        ∀ i l, lights s !! i = Some l →
          ∃ l', lights s' !! i = Some l' ∧
                PointLight.intensity l' = PointLight.intensity l ∧
                PointLight.distance l' = PointLight.distance l ∧
                PointLight.color l' = PointLight.color l ∧
                (i ≠ Z.to_nat (params_activeLight s) → l' = l).
Proof.
  intros Hrig Hin.
  destruct (updateLightMovement_effect delta s Hrig Hin)
    as (la & s' & Hla & Hrun & Hfr & _ & _).
  exists s'. split; [done|].
  assert (Hl : lights s' =
               <[Z.to_nat (params_activeLight s) :=
                   PointLight.set_position la
                     (moveLight (keys s) (lit 4 * delta)%js
                        (PointLight.position la))]> (lights s))
    by (rewrite Hfr; done).
  rewrite Hl. split; [apply length_insert|].
  intros i l Hi.
  destruct (decide (i = Z.to_nat (params_activeLight s))) as [->|Hne].
  - rewrite Hla in Hi. injection Hi as <-.
    rewrite list_lookup_insert_eq by eauto using lookup_lt_Some.
    eexists. split; [done|]. by repeat split.
  - rewrite list_lookup_insert_ne by done. eauto 10.
Qed.

(** C9. The synchronisation is part of [updateLightMovement] and sits
    after its early return: when [lights[params.activeLight]] is
    undefined the call returns the state as it found it, so no marker
    position is copied and no helper is refreshed, and a marker that was
    out of step with its light (after a panel edit, say) stays so. *)
Theorem early_return_skips_sync
    (delta : T) (o : ControlsOutcome T) (s : State T) :
  array_get (lights s) (params_activeLight s) = None →
  updateLightMovement delta s = Some s ∧
  lightSpheres (updateCameraMovement delta s) = lightSpheres s ∧
  lightHelpers (updateCameraMovement delta s) = lightHelpers s ∧
  ∃ s', animate delta o s = Some s' ∧
        lightSpheres s' = lightSpheres s ∧
        lightHelpers s' = lightHelpers s ∧
        ∀ i, ¬ synced_at s i → ¬ synced_at s' i.
Proof.
  intros Hnone.
  destruct (updateCameraMovement_rig delta s) as (El & Es & Eh & _ & Ea).
  split; [|split; [done|split; [done|]]].
  - unfold updateLightMovement. by rewrite Hnone.
  - exists (controls_update o (updateCameraMovement delta s)).
    unfold animate, updateLightMovement.
    rewrite El, Ea, Hnone. repeat split; try done.
    intros i Hns Hsy. apply Hns. unfold synced_at in *.
    cbn [controls_update lights lightSpheres lightHelpers] in Hsy.
    by rewrite El, Es, Eh in Hsy.
Qed.
End LightNavigator.

(** ** Exact real arithmetic: [Vector3] facts *)
Section RealVectors.
Local Open Scope R_scope.
Implicit Types u v : Vector3.t R.

Lemma num_gt_R (a b : R) : num_gt a b = true ↔ b < a.
Proof. cbn. destruct (Rlt_dec b a); split; (done || lra). Qed.

Lemma Vector3_eq u v :
  Vector3.x u = Vector3.x v → Vector3.y u = Vector3.y v →
  Vector3.z u = Vector3.z v → u = v.
Proof. destruct u, v; cbn. by intros -> -> ->. Qed.

Lemma lengthSq_nonneg v : 0 <= Vector3.lengthSq v.
Proof. unfold Vector3.lengthSq; cbn. nra. Qed.

Lemma lengthSq_zero v :
  Vector3.lengthSq v = 0 →
  Vector3.x v = 0 ∧ Vector3.y v = 0 ∧ Vector3.z v = 0.
Proof. unfold Vector3.lengthSq; cbn. intros Hq. repeat split; nra. Qed.

Lemma lengthSq_origin : Vector3.lengthSq (Vector3.mk 0 0 0) = 0.
Proof. unfold Vector3.lengthSq; cbn. ring. Qed.

Lemma lengthSq_multiplyScalar v (k : R) :
  Vector3.lengthSq (Vector3.multiplyScalar v k) = k * k * Vector3.lengthSq v.
Proof. unfold Vector3.lengthSq, Vector3.multiplyScalar; cbn. ring. Qed.

(** [Math.sqrt(q) || 1] is 1 at 0 and the square root elsewhere. *)
Lemma sqrt_or_1 (q : R) :
  0 <= q →
  (q = 0 ∧ num_or (num_sqrt q) (lit 1) = 1) ∨
  (0 < q ∧ num_or (num_sqrt q) (lit 1) = sqrt q ∧ 0 < sqrt q).
Proof.
  intros Hq. unfold num_or; cbn.
  destruct (Req_dec_T (sqrt q) 0) as [E|E].
  - left. split; [|done]. by apply sqrt_eq_0.
  - right. assert (0 < q).
    { destruct Hq as [?|Hq]; [done|]. by rewrite <- Hq, sqrt_0 in E. }
    repeat split; [done|]. by apply sqrt_lt_R0.
Qed.

Lemma length_or_1 v :
  (Vector3.lengthSq v = 0 ∧ num_or (Vector3.length v) (lit 1) = 1) ∨
  (0 < Vector3.lengthSq v ∧
   num_or (Vector3.length v) (lit 1) = sqrt (Vector3.lengthSq v) ∧
   0 < sqrt (Vector3.lengthSq v)).
Proof. apply sqrt_or_1, lengthSq_nonneg. Qed.

(** [normalize] leaves the zero vector as it is: no division by zero. *)
Lemma normalize_zero v : Vector3.lengthSq v = 0 → Vector3.normalize v = v.
Proof.
  intros Hq. unfold Vector3.normalize, Vector3.divideScalar.
  destruct (length_or_1 v) as [[_ ->]|[? _]]; [|lra].
  apply Vector3_eq; cbn; field.
Qed.

Lemma normalize_unit v :
  0 < Vector3.lengthSq v → Vector3.lengthSq (Vector3.normalize v) = 1.
Proof.
  intros Hq. unfold Vector3.normalize, Vector3.divideScalar.
  destruct (length_or_1 v) as [[? _]|(_ & -> & Hs)]; [lra|].
  rewrite lengthSq_multiplyScalar.
  assert (Hs2 : sqrt (Vector3.lengthSq v) * sqrt (Vector3.lengthSq v)
                = Vector3.lengthSq v) by (apply sqrt_sqrt; lra).
  revert Hs Hs2. generalize (sqrt (Vector3.lengthSq v)).
  intros r Hr <-. cbn. field. lra.
Qed.

Lemma length_scaled_unit v (k : R) :
  Vector3.lengthSq v = 1 →
  Vector3.length (Vector3.multiplyScalar v k) = Rabs k.
Proof.
  intros Hu. unfold Vector3.length. rewrite lengthSq_multiplyScalar, Hu.
  cbn. rewrite Rmult_1_r. apply sqrt_Rsqr_abs.
Qed.

Lemma add_sub_cancel u v : Vector3.sub (Vector3.add u v) u = v.
Proof. apply Vector3_eq; cbn; ring. Qed.
End RealVectors.

(** ** [updateCameraMovement], for every number type *)
Section CameraNavigator.
Context {T : Type} `{JsNumber T}.
Local Open Scope js_scope.

Lemma updateCameraMovement_eq (delta : T) (s : State T) :
  updateCameraMovement delta s =
  if Vector3.lengthSq (heldDirection s) >? lit 0 then
    let m := Vector3.multiplyScalar (Vector3.normalize (heldDirection s))
               (speed * delta) in
    set_scratch
      (set_view s (Vector3.add (Camera.position (camera s)) m)
                  (Vector3.add (controls_target s) m))
      (flatForward s) (flatRight s) m
  else set_scratch s (flatForward s) (flatRight s) (heldDirection s).
Proof. reflexivity. Qed.

(** The call writes the camera position, the look target and the three
    scratch vectors, nothing else; the camera keeps its orientation. *)
Lemma updateCameraMovement_orientation (delta : T) (s : State T) :
  Camera.worldDirection (camera (updateCameraMovement delta s))
    = Camera.worldDirection (camera s) ∧
  Camera.up (camera (updateCameraMovement delta s)) = Camera.up (camera s).
Proof. rewrite updateCameraMovement_eq. by case num_gt. Qed.



End CameraNavigator.

(** ** [updateCameraMovement] in exact real arithmetic *)
Section CameraReal.
Local Open Scope R_scope.
Implicit Types s : State R.

Lemma flatForward_set_keys s k : flatForward (set_keys s k) = flatForward s.
Proof. reflexivity. Qed.

Lemma flatRight_set_keys s k : flatRight (set_keys s k) = flatRight s.
Proof. reflexivity. Qed.

(** The flattened forward vector and the right vector are orthogonal, so
    the squared length of the requested direction splits. *)
Lemma lengthSq_heldDirection s :
  Vector3.lengthSq (heldDirection s) =
  IZR (axis (KeyW (keys s)) (KeyS (keys s))) ^ 2
    * Vector3.lengthSq (flatForward s)
  + IZR (axis (KeyD (keys s)) (KeyA (keys s))) ^ 2
    * Vector3.lengthSq (flatRight s).
Proof.
  unfold heldDirection, flatRight, Vector3.normalize, Vector3.divideScalar.
  generalize (lit 1 / num_or
    (Vector3.length
       (Vector3.crossVectors (right s) (flatForward s) (Camera.up (camera s))))
    (lit 1))%js.
  generalize (flatForward s) (Camera.up (camera s)).
  intros f up k.
  destruct (KeyW (keys s)), (KeyS (keys s)), (KeyA (keys s)), (KeyD (keys s));
    unfold Vector3.lengthSq; cbn; ring.
Qed.

Lemma flatRight_zero s :
  Vector3.lengthSq (flatForward s) = 0 → flatRight s = Vector3.mk 0 0 0.
Proof.
  unfold flatRight. generalize (flatForward s). intros [fx fy fz] Hf.
  apply lengthSq_zero in Hf as (Hx & Hy & Hz). cbn in Hx, Hy, Hz. subst.
  rewrite normalize_zero.
  - apply Vector3_eq; cbn; ring.
  - unfold Vector3.lengthSq; cbn. ring.
Qed.


(** The length of one step: [speed * |delta|] when some direction is
    requested, 0 otherwise. *)
Lemma displacement_length (delta : R) s :
  Vector3.length (displacement delta s) =
  if (Vector3.lengthSq (heldDirection s) >? lit 0)%js
  then Rabs (5 * delta) else 0.
Proof.
  unfold displacement. rewrite updateCameraMovement_eq.
  destruct (num_gt _ _) eqn:E; cbn [camera set_scratch set_view
    Camera.position Camera.set_position].
  - apply num_gt_R in E. rewrite add_sub_cancel.
    apply length_scaled_unit, normalize_unit, E.
  - unfold Vector3.length, Vector3.lengthSq; cbn.
    match goal with |- sqrt ?q = 0 => replace q with 0 by ring end.
    apply sqrt_0.
Qed.

Lemma moving_iff s :
  (Vector3.lengthSq (heldDirection s) >? lit 0)%js = true ↔
  0 < Vector3.lengthSq (heldDirection s).
Proof. apply num_gt_R. Qed.

Lemma not_moving s :
  Vector3.lengthSq (heldDirection s) = 0 →
  (Vector3.lengthSq (heldDirection s) >? lit 0)%js = false.
Proof.
  intros E. destruct (num_gt _ _) eqn:G; [|done].
  apply num_gt_R in G. rewrite E in G. cbn in G. lra.
Qed.

Lemma updateCameraMovement_still (delta : R) s :
  Vector3.lengthSq (heldDirection s) = 0 →
  Camera.position (camera (updateCameraMovement delta s))
    = Camera.position (camera s) ∧
  controls_target (updateCameraMovement delta s) = controls_target s.
Proof.
  intros E. rewrite updateCameraMovement_eq, not_moving by done. done.
Qed.
End CameraReal.

(** ** Cancelling keys in IEEE 754 binary64

    [(z + f) - f] and [(z - f) + f] for [z] a zero: the zero again when
    [f] is finite, NaN when it is infinite or NaN.  Either way the test
    [moveDir.lengthSq() > 0] of line 191 fails. *)
Section CancelBinary64.
Local Abbreviation F := PrimFloat.float.

Lemma zero_or_nan_lit0 : zero_or_nan (lit 0).
Proof. left. exists false. reflexivity. Qed.

Lemma zero_or_nan_add (a b : F) :
  zero_or_nan a → zero_or_nan b → zero_or_nan (PrimFloat.add a b).
Proof.
  unfold zero_or_nan. rewrite FloatAxioms.add_spec.
  intros [[sa ->]| ->] [[sb ->]| ->]; cbn; eauto.
  destruct sa, sb; eauto.
Qed.

Lemma zero_or_nan_mul (a b : F) :
  zero_or_nan a → zero_or_nan b → zero_or_nan (PrimFloat.mul a b).
Proof.
  unfold zero_or_nan. rewrite FloatAxioms.mul_spec.
  intros [[sa ->]| ->] [[sb ->]| ->]; cbn; eauto.
Qed.

Lemma zero_or_nan_not_gt (a : F) :
  zero_or_nan a → num_gt a (lit 0) = false.
Proof.
  intros Ha. cbn [num_gt JsNumber_float].
  rewrite FloatAxioms.ltb_spec.
  replace (FloatOps.Prim2SF (lit 0)) with (SpecFloat.S754_zero false)
    by reflexivity.
  by destruct Ha as [[sa ->]| ->].
Qed.

Lemma zero_or_nan_add_sub (z f : F) :
  zero_or_nan z → zero_or_nan (PrimFloat.sub (PrimFloat.add z f) f).
Proof.
  unfold zero_or_nan. rewrite FloatAxioms.sub_spec, FloatAxioms.add_spec.
  intros [[sz ->]| ->]; [|by right].
  destruct (FloatOps.Prim2SF f) as [sf|sf| |sf m e]; cbn.
  - destruct sz, sf; cbn; eauto.
  - destruct sf; cbn; eauto.
  - eauto.
  - left. exists false. unfold FloatAxioms.SF64sub, SpecFloat.SFsub.
    rewrite Z.sub_diag. reflexivity.
Qed.

Lemma zero_or_nan_sub_add (z f : F) :
  zero_or_nan z → zero_or_nan (PrimFloat.add (PrimFloat.sub z f) f).
Proof.
  unfold zero_or_nan. rewrite FloatAxioms.add_spec, FloatAxioms.sub_spec.
  intros [[sz ->]| ->]; [|by right].
  destruct (FloatOps.Prim2SF f) as [sf|sf| |sf m e]; cbn.
  - destruct sz, sf; cbn; eauto.
  - destruct sf; cbn; eauto.
  - eauto.
  - left. exists false. unfold FloatAxioms.SF64add, SpecFloat.SFadd.
    replace (_ + _)%Z with 0%Z; [reflexivity|].
    destruct sf; cbn; lia.
Qed.

(** With forward and back both held or both released, and left and right
    likewise, every coordinate of the requested direction is a zero or
    NaN. *)
Lemma heldDirection_cancels (b : State F) :
  KeyW (keys b) = KeyS (keys b) → KeyA (keys b) = KeyD (keys b) →
  zero_or_nan (Vector3.x (heldDirection b)) ∧
  zero_or_nan (Vector3.y (heldDirection b)) ∧
  zero_or_nan (Vector3.z (heldDirection b)).
Proof.
  intros HWS HAD. unfold heldDirection. rewrite <- HWS, <- HAD.
  generalize (flatForward b) (flatRight b). intros f r.
  destruct (KeyW (keys b)), (KeyA (keys b));
    cbn [Vector3.x Vector3.y Vector3.z Vector3.add Vector3.sub Vector3.set
         num_add num_sub JsNumber_float];
    repeat split;
    repeat first [ apply zero_or_nan_sub_add | apply zero_or_nan_add_sub ];
    apply zero_or_nan_lit0.
Qed.

(** So the camera stays where it is, whatever the state and the elapsed
    time, NaN and the infinities included. *)
Lemma updateCameraMovement_cancels (t : F) (b : State F) :
  KeyW (keys b) = KeyS (keys b) → KeyA (keys b) = KeyD (keys b) →
  Camera.position (camera (updateCameraMovement t b))
    = Camera.position (camera b) ∧
  controls_target (updateCameraMovement t b) = controls_target b.
Proof.
  intros HWS HAD.
  destruct (heldDirection_cancels b HWS HAD) as (Hx & Hy & Hz).
  rewrite updateCameraMovement_eq.
  assert (num_gt (Vector3.lengthSq (heldDirection b)) (lit 0) = false) as ->.
  { apply zero_or_nan_not_gt. unfold Vector3.lengthSq.
    cbn [num_add num_mul JsNumber_float].
    auto using zero_or_nan_add, zero_or_nan_mul. }
  done.
Qed.
End CancelBinary64.

(** ** Claims about the camera navigator *)
Section CameraClaims.
Local Open Scope R_scope.
Implicit Types s : State R.

(** C2, in exact real arithmetic.  For an elapsed time [delta >= 0]
    and every key state, one call of [updateCameraMovement] moves the
    camera by at most [speed * delta]; forward and right held together
    move it exactly as far as forward alone; and opposing keys that cancel
    move it not at all.  The last holds in binary64 as well: with keys
    that cancel, the call leaves camera position and look target as they
    are, in every state and for every elapsed time. *)
Theorem camera_step_at_most_speed_delta (delta : R) s :
  0 <= delta →
  Vector3.length (displacement delta s) <= speed * delta ∧
  (∀ kd kf,
     movementKeys kd = [true; false; false; true] →
     movementKeys kf = [true; false; false; false] →
     Vector3.length (displacement delta (set_keys s kd)) =
     Vector3.length (displacement delta (set_keys s kf))) ∧
  (∀ k, KeyW k = KeyS k → KeyA k = KeyD k →
     displacement delta (set_keys s k) = Vector3.mk 0 0 0 ∧
     Vector3.length (displacement delta (set_keys s k)) = 0) ∧
  (∀ (t : PrimFloat.float) (b : State PrimFloat.float),
     KeyW (keys b) = KeyS (keys b) → KeyA (keys b) = KeyD (keys b) →
     Camera.position (camera (updateCameraMovement t b))
       = Camera.position (camera b) ∧
     controls_target (updateCameraMovement t b) = controls_target b).
Proof.
  intros Hd.
  split; [|split; [|split]]; [| | |apply updateCameraMovement_cancels].
  - rewrite displacement_length. cbn [speed lit JsNumber_R].
    destruct (num_gt _ _); [rewrite Rabs_pos_eq|]; lra.
  - intros kd kf Hkd Hkf. injection Hkd as HW HA HS HD.
    injection Hkf as HW' HA' HS' HD'.
    rewrite !displacement_length.
    pose proof (lengthSq_heldDirection (set_keys s kd)) as Ed.
    pose proof (lengthSq_heldDirection (set_keys s kf)) as Ef.
    cbn [keys set_keys] in Ed, Ef.
    rewrite flatForward_set_keys, flatRight_set_keys in Ed, Ef.
    rewrite HW, HA, HS, HD in Ed. rewrite HW', HA', HS', HD' in Ef.
    cbn [axis] in Ed, Ef.
    pose proof (lengthSq_nonneg (flatForward s)) as Hf.
    pose proof (lengthSq_nonneg (flatRight s)) as Hr.
    destruct (num_gt (Vector3.lengthSq (heldDirection (set_keys s kd))) _)
      eqn:Gd;
      destruct (num_gt (Vector3.lengthSq (heldDirection (set_keys s kf))) _)
        eqn:Gf; try done.
    + apply moving_iff in Gd.
      assert (Vector3.lengthSq (flatForward s) = 0) as F0.
      { destruct (Rle_lt_or_eq_dec _ _ Hf) as [Hpos|]; [|done].
        assert (0 < Vector3.lengthSq (heldDirection (set_keys s kf)))
          as G by lra.
        apply moving_iff in G. congruence. }
      rewrite (flatRight_zero s F0), lengthSq_origin in Ed. lra.
    + apply moving_iff in Gf.
      assert (0 < Vector3.lengthSq (heldDirection (set_keys s kd)))
        as G by lra.
      apply moving_iff in G. congruence.
  - intros k HWS HAD.
    assert (Vector3.lengthSq (heldDirection (set_keys s k)) = 0) as E.
    { rewrite lengthSq_heldDirection. cbn [keys set_keys].
      rewrite HWS, HAD.
      destruct (KeyS k), (KeyD k); cbn [axis]; lra. }
    split.
    + unfold displacement.
      destruct (updateCameraMovement_still delta _ E) as [-> _].
      apply Vector3_eq; cbn; ring.
    + by rewrite displacement_length, not_moving.
Qed.



End CameraClaims.

(** ** Whole frames *)
Section Frames.
Context {T : Type} `{JsNumber T}.

(** A frame on a complete rig returns: the two navigators lead to a
    state [s0], in which the light navigator has left the camera, the
    target, the keys and the selection as the camera navigator left
    them, and the frame ends in what [controls.update()] makes of
    [s0]. *)
Lemma animate_effect (delta : T) (o : ControlsOutcome T) (s : State T) :
  rig_complete s →
  ∃ s0, animate delta o s = Some (controls_update o s0) ∧
        updateLightMovement delta (updateCameraMovement delta s) = Some s0 ∧
        camera s0 = camera (updateCameraMovement delta s) ∧
        controls_target s0 = controls_target (updateCameraMovement delta s) ∧
        keys s0 = keys s ∧
        params_activeLight s0 = params_activeLight s ∧
        length (lights s0) = length (lights s) ∧
        rig_complete s0.
Proof.
  intros [Hs Hh].
  destruct (updateCameraMovement_rig delta s) as (El & Es & Eh & Ek & Ea).
  destruct (updateLightMovement_total delta (updateCameraMovement delta s))
    as [s' Hrun].
  { unfold rig_complete. by rewrite El, Es, Eh. }
  exists s'. unfold animate. rewrite Hrun.
  destruct (updateLightMovement_frame _ _ _ Hrun) as (Hfr & Ll & Ls & Lh).
  repeat split; try done; try (rewrite Hfr; cbn; done).
  - by rewrite Ll, El.
  - rewrite Ll, Ls, El, Es. done.
  - rewrite Ll, Lh, El, Eh. done.
Qed.

End Frames.

Section FramesReal.
Local Open Scope R_scope.
Implicit Types s : State R.

Lemma normalize_of_unit (v : Vector3.t R) :
  Vector3.lengthSq v = 1 → Vector3.normalize v = v.
Proof.
  intros Hu. unfold Vector3.normalize, Vector3.divideScalar.
  destruct (length_or_1 v) as [[? _]|(_ & -> & _)]; [lra|].
  rewrite Hu, sqrt_1. apply Vector3_eq; cbn; field.
Qed.



End FramesReal.

(** ** Claims about the light navigator in exact real arithmetic *)
Section LightReal.
Local Open Scope R_scope.
Implicit Types s : State R.

(** Lines 210-215 in closed form: each pair of opposite keys acts on its
    own axis, and the contributions add up. *)
Lemma moveLight_R (k : Keys) (c : R) (p : Vector3.t R) :
  moveLight k c p =
  Vector3.mk
    (Vector3.x p + c * IZR (axis (ArrowRight k) (ArrowLeft k)))
    (Vector3.y p + c * IZR (axis (PageUp k) (PageDown k)))
    (Vector3.z p + c * IZR (axis (ArrowDown k) (ArrowUp k))).
Proof.
  unfold moveLight.
  destruct (ArrowUp k), (ArrowDown k), (ArrowLeft k), (ArrowRight k),
    (PageUp k), (PageDown k); apply Vector3_eq; cbn; ring.
Qed.



End LightReal.

(** ** Runs in IEEE 754 binary64 *)
Section Binary64.
Local Abbreviation F := PrimFloat.float.

Lemma vector_neq (u v : Vector3.t F) :
  (PrimFloat.eqb (Vector3.x u) (Vector3.x v)
   && PrimFloat.eqb (Vector3.y u) (Vector3.y v)
   && PrimFloat.eqb (Vector3.z u) (Vector3.z v)) = false →
  PrimFloat.is_nan (Vector3.x u) = false →
  PrimFloat.is_nan (Vector3.y u) = false →
  PrimFloat.is_nan (Vector3.z u) = false →
  u ≠ v.
Proof.
  intros Hne Hx Hy Hz <-.
  assert (∀ a : F, PrimFloat.is_nan a = false → PrimFloat.eqb a a = true)
    as Hrefl.
  { intros a. unfold PrimFloat.is_nan. by destruct (PrimFloat.eqb a a). }
  by rewrite !Hrefl in Hne.
Qed.




(** The vertical view in binary64, for every key state and every
    elapsed time (NaN and the infinities included): looking straight up
    or straight down, camera and target stay where they are. *)
Example vertical_view_binary64 (delta : F) (k : Keys) (a : Z) (up : bool) :
  let s : State F := scene (vec 0 (if up then 1 else -1) 0) k a in
  Camera.position (camera (updateCameraMovement delta s))
    = Camera.position (camera s) ∧
  controls_target (updateCameraMovement delta s) = controls_target s.
Proof.
  destruct k as [[] [] [] [] ? ? ? ? ? ?], up; vm_compute; done.
Qed.

(** C2, refuted as stated.  Binary64, initial scene, camera at
    (5, 5, 10) facing -Z.  With only the forward key held and an elapsed
    time of 1/60 the camera position changes by more than [speed * delta]:
    10 - 5/60 is rounded, and the change of position is what the rounded
    result leaves.  With an elapsed time of 1/3 the change of position
    with forward and right held is longer than with forward alone. *)
Lemma rounded_step_exceeds_speed_delta :
  let s : State F := scene (vec 0 0 (-1)) keysForward 0 in
  let d60 : F := (lit 1 / lit 60)%js in
  let d3 : F := (lit 1 / lit 3)%js in
  num_gt d60 (lit 0) = true ∧
  num_gt (Vector3.length (displacement d60 s)) (speed * d60)%js = true ∧
  num_gt d3 (lit 0) = true ∧
  movementKeys (keys (set_keys s keysForwardRight))
    = [true; false; false; true] ∧
  num_gt (Vector3.length (displacement d3 (set_keys s keysForwardRight)))
         (Vector3.length (displacement d3 s)) = true.
Proof. cbv zeta. repeat split; vm_compute; reflexivity. Qed.


End Binary64.

(** ** The elapsed time is used as it comes *)
Section ElapsedTime.
Local Open Scope R_scope.
Implicit Types s : State R.


End ElapsedTime.

(** ** The theorems at concrete states *)
Section Instances.
Local Abbreviation F := PrimFloat.float.
Local Open Scope R_scope.


Lemma out_of_range_at_minus_1_and_5 :
  (∃ s', updateLightMovement (lit 1)
           (scene (vec 0 0 (-1)) keysIncreaseX (-1) : State F) = Some s' ∧
         lights s' = lights (scene (vec 0 0 (-1)) keysIncreaseX (-1))) ∧
  (∃ s', updateLightMovement (lit 1)
           (scene (vec 0 0 (-1)) keysIncreaseX 5 : State F) = Some s' ∧
         lights s' = lights (scene (vec 0 0 (-1)) keysIncreaseX 5)).
Proof.
  split.
  - apply (out_of_range_selection_leaves_lights (lit 1)
             (scene (vec 0 0 (-1)) keysIncreaseX (-1))).
    left. cbn. lia.
  - apply (out_of_range_selection_leaves_lights (lit 1)
             (scene (vec 0 0 (-1)) keysIncreaseX 5)).
    right. cbn. lia.
Defined.

Lemma selected_light_at_initial_scene :
  let s : State F := scene (vec 0 0 (-1)) keysIncreaseX 2 in
  ∃ s', updateLightMovement (lit 1) s = Some s' ∧
        length (lights s') = length (lights s) ∧
        ∀ i l, lights s !! i = Some l →
          ∃ l', lights s' !! i = Some l' ∧
                PointLight.intensity l' = PointLight.intensity l ∧
                PointLight.distance l' = PointLight.distance l ∧
                PointLight.color l' = PointLight.color l ∧
                (i ≠ Z.to_nat (params_activeLight s) → l' = l).
Proof.
  cbv zeta. apply selected_light_position_only.
  - split; cbn; lia.
  - unfold active_in_range; cbn; lia.
Defined.

Lemma early_return_at_5 :
  let s : State F := scene (vec 0 0 (-1)) keysIncreaseX 5 in
  array_get (lights s) (params_activeLight s) = None ∧
  updateLightMovement (lit 1) s = Some s.
Proof.
  cbv zeta.
  assert (array_get (lights (scene (vec 0 0 (-1)) keysIncreaseX 5 : State F))
            (params_activeLight
               (scene (vec 0 0 (-1)) keysIncreaseX 5 : State F)) = None)
    as Hnone by reflexivity.
  split; [exact Hnone|].
  exact (proj1 (early_return_skips_sync (lit 1)
                  (mkControlsOutcome (vec 4 6 9) (vec 0 0 (-1)) (vec 0 1 (-2)))
                  _ Hnone)).
Defined.

Lemma camera_step_at_initial_scene :
  let s : State R := scene (vec 0 0 (-1)) keysForwardRight 0 in
  0 <= 1 ∧
  Vector3.length (displacement 1 s) <= speed * 1 ∧
  Vector3.length (displacement 1 (set_keys s keysForwardRight)) =
  Vector3.length (displacement 1 (set_keys s keysForward)) ∧
  displacement 1 (set_keys s keysForwardBack) = Vector3.mk 0 0 0.
Proof.
  cbv zeta. assert (0 <= 1) as H01 by lra.
  destruct (camera_step_at_most_speed_delta 1
              (scene (vec 0 0 (-1)) keysForwardRight 0) H01)
    as (Hle & Hdiag & Hopp & _).
  split; [exact H01|]. split; [exact Hle|]. split.
  - apply Hdiag; reflexivity.
  - apply Hopp; reflexivity.
Defined.





End Instances.

(** * Further properties of [main.js] *)

(** ** The key listeners *)
Section KeyListeners.
Context {T : Type} `{JsNumber T} `{JsMath T}.

(** Writing one flag and reading any flag. *)
Lemma key_get_set (k : Keys) (c code : string) (v : bool) :
  key_in c = true →
  key_get (key_set k c v) code =
  if decide (c = code) then Some v else key_get k code.
Proof.
  intros Hc. unfold key_in in Hc. apply bool_decide_eq_true in Hc.
  unfold keyNames in Hc. unfold key_set.
  repeat (case_decide;
          [subst c; unfold key_get;
           repeat (case_decide; [subst; try done|]);
           cbn; try done; try congruence |]).
  all: first [done
             | exfalso;
               repeat (apply elem_of_cons in Hc as [?|Hc]; [done|]);
               by apply elem_of_nil in Hc].
Qed.

Lemma run_app (es es' : list (Event T)) (s : State T) :
  run (es ++ es') s = run es s ≫= run es'.
Proof.
  revert s. induction es as [|e es IH]; intros s; cbn; [done|].
  destruct (step e s) as [s1|]; cbn; [apply IH|done].
Qed.

Lemma colorChanged_frame i hex (s s' : State T) :
  colorChanged i hex s = Some s' →
  s' = set_proxies (set_lights s (lights s')) (lightSpheres s')
         (lightHelpers s) ∧
  length (lights s') = length (lights s) ∧
  length (lightSpheres s') = length (lightSpheres s).
Proof.
  unfold colorChanged. destruct (lights s !! i) as [l|]; cbn.
  - destruct (lightSpheres s !! i) as [sp|]; cbn; [|done].
    intros [= <-]. cbn. by rewrite !length_insert.
  - intros [= <-]. by destruct s.
Qed.

(** Only the two listeners write the key map. *)
Lemma step_keys (e : Event T) (s s' : State T) :
  step e s = Some s' →
  keys s' = match e with
            | KeyDown c => keys (keydown c s)
            | KeyUp c => keys (keyup c s)
            | _ => keys s
            end.
Proof.
  destruct e; cbn; try (by intros [= <-]).
  - intros Hrun. unfold animate in Hrun.
    apply fmap_Some in Hrun as (s0 & Hrun & ->).
    apply updateLightMovement_frame in Hrun as (-> & _). cbn.
    apply updateCameraMovement_rig.
  - intros [= <-]. unfold pickLight. by case_match.
  - intros [= <-]. unfold panelNumber. by case_match.
  - intros Hrun. apply colorChanged_frame in Hrun as (-> & _). done.
Qed.

Lemma lastPress_snoc code (es : list (Event T)) e :
  lastPress code (es ++ [e]) =
  match e with
  | KeyDown c => if decide (c = code) then Some true else lastPress code es
  | KeyUp c => if decide (c = code) then Some false else lastPress code es
  | _ => lastPress code es
  end.
Proof. unfold lastPress. by rewrite foldl_app. Qed.

(** X1. The key map is level-triggered: after any run of events, the
    flag of each of the ten keys is the one written by the last keydown
    or keyup event for that key, and the flag it had before when there
    was none.  Events of other keys, frames and panel edits in between
    make no difference. *)
Theorem key_flag_is_last_event (es : list (Event T)) (s s' : State T)
    (code : string) :
  key_in code = true →
  run es s = Some s' →
  key_get (keys s') code =
  match lastPress code es with
  | Some v => Some v
  | None => key_get (keys s) code
  end.
Proof.
  intros Hcode. revert s'.
  induction es as [|e es IH] using rev_ind; intros s' Hrun.
  - cbn in Hrun. by injection Hrun as <-.
  - rewrite run_app in Hrun.
    destruct (run es s) as [s1|] eqn:Hes; [|done]. cbn in Hrun.
    destruct (step e s1) as [s2|] eqn:He; [|done]. cbn in Hrun.
    injection Hrun as <-.
    rewrite lastPress_snoc. rewrite (step_keys _ _ _ He).
    specialize (IH s1 eq_refl).
    destruct e; try done.
    + unfold keydown. destruct (key_in code0) eqn:Hin; cbn.
      * rewrite key_get_set by done. by case_decide.
      * case_decide; [congruence|done].
    + unfold keyup. destruct (key_in code0) eqn:Hin; cbn.
      * rewrite key_get_set by done. by case_decide.
      * case_decide; [congruence|done].
Qed.
End KeyListeners.

(** ** Invariants of every run *)
Section Runs.
Context {T : Type} `{JsNumber T} `{JsMath T}.

Lemma invariant_initial (dir : Vector3.t T) :
  scene_invariant (initialState dir).
Proof.
  split; [|split]; [| |done].
  - repeat split; cbn; lia.
  - intros i l. destruct i as [|[|[|[|[|i]]]]]; cbn; intros [= <-]; eauto.
Qed.

Lemma option_value_lightNames name a :
  option_value lightNames name = Some a → (0 ≤ a < 5)%Z.
Proof.
  unfold lightNames; cbn. repeat case_decide; intros [= <-]; lia.
Qed.

Lemma write_field_color f (v : T) l :
  PointLight.color (write_field f v l) = PointLight.color l.
Proof. by destruct f. Qed.

(** A frame changes no colour of a light or of a marker. *)
Lemma updateLightMovement_colours (delta : T) (s s' : State T) :
  updateLightMovement delta s = Some s' →
  (∀ i, marker_colour_at s i) → ∀ i, marker_colour_at s' i.
Proof.
  unfold updateLightMovement.
  destruct (array_get _ _) as [la|] eqn:Ha; [|by intros [= <-]].
  intros Hrun Hcol i l' Hl'. unfold syncLoop in Hrun.
  apply forLoop_syncBody in Hrun as (Hfr & Hls & _ & _ & _ & Hsp).
  cbn in Hfr, Hls, Hsp.
  rewrite Hfr in Hl'. cbn in Hl'.
  assert (∃ l, lights s !! i = Some l ∧
               PointLight.color l' = PointLight.color l) as (l & Hl & Hc).
  { destruct (decide (i = Z.to_nat (params_activeLight s))) as [->|Hne].
    - unfold array_get in Ha. destruct (_ <? _)%Z; [done|].
      rewrite list_lookup_insert_eq in Hl' by eauto using lookup_lt_Some.
      injection Hl' as <-. eauto.
    - rewrite list_lookup_insert_ne in Hl' by done. eauto. }
  destruct (Hcol i l Hl) as (sp & Hspi & Hspc).
  destruct (lookup_lt_is_Some_2 (lightSpheres s') i) as [sp' Hsp'].
  { rewrite Hls. eauto using lookup_lt_Some. }
  exists sp'. split; [done|].
  destruct (Hsp i sp' Hsp') as (sp0 & Hsp0 & ->).
  rewrite Hspi in Hsp0. injection Hsp0 as <-. congruence.
Qed.

Lemma step_invariant (e : Event T) (s : State T) :
  scene_invariant s →
  ∃ s', step e s = Some s' ∧ scene_invariant s'.
Proof.
  intros (Hrig & Hcol & Hup).
  destruct Hrig as (Ll & Ls & Lh & Ha).
  destruct e as [c|c|delta o|name|i f v|i hex|box dir o|p dir tg]; cbn.
  - eexists; split; [done|]. unfold keydown. by destruct (key_in c).
  - eexists; split; [done|]. unfold keyup. by destruct (key_in c).
  - destruct (animate_effect delta o s) as
      (s' & Hrun & Hlm & Ec & _ & _ & Ea & Ell & _).
    { split; lia. }
    exists (controls_update o s'). split; [done|].
    destruct (updateLightMovement_frame _ _ _ Hlm) as (_ & _ & Ls' & Lh').
    destruct (updateCameraMovement_rig delta s) as (El & Es & Eh & _ & _).
    split; [|split].
    + repeat split;
        cbn [controls_update lights lightSpheres lightHelpers
             params_activeLight]; try lia.
      * by rewrite Ls', Es.
      * by rewrite Lh', Eh.
    + intros j. change (marker_colour_at s' j). revert j.
      apply (updateLightMovement_colours _ _ _ Hlm).
      intros j. unfold marker_colour_at. rewrite El, Es. apply Hcol.
    + cbn [controls_update camera Camera.up]. rewrite Ec.
      by destruct (updateCameraMovement_orientation delta s) as [_ ->].
  - eexists; split; [done|]. unfold pickLight.
    destruct (option_value lightNames name) as [a|] eqn:Hn; [|done].
    apply option_value_lightNames in Hn.
    split; [|split]; [|done..]. repeat split; cbn; lia.
  - eexists; split; [done|]. unfold panelNumber.
    destruct (lights s !! i) as [l|] eqn:Hl; [|done].
    split; [|split]; [| |done].
    + repeat split; cbn; rewrite ?length_insert; lia.
    + intros j l'. cbn. intros Hl'.
      destruct (decide (j = i)) as [->|Hne].
      * rewrite list_lookup_insert_eq in Hl' by eauto using lookup_lt_Some.
        injection Hl' as <-. rewrite write_field_color. by apply Hcol.
      * rewrite list_lookup_insert_ne in Hl' by done. by apply Hcol.
  - unfold colorChanged.
    destruct (lights s !! i) as [l|] eqn:Hl; [|by eexists].
    cbn.
    destruct (lookup_lt_is_Some_2 (lightSpheres s) i) as [sp Hsp].
    { rewrite Ls, <- Ll. eauto using lookup_lt_Some. }
    rewrite Hsp. cbn. eexists; split; [done|].
    split; [|split]; [| |done].
    + repeat split; cbn; rewrite ?length_insert; lia.
    + intros j l'. cbn. intros Hl'.
      destruct (decide (j = i)) as [->|Hne].
      * rewrite list_lookup_insert_eq in Hl' by eauto using lookup_lt_Some.
        injection Hl' as <-.
        rewrite list_lookup_insert_eq by eauto using lookup_lt_Some.
        eauto.
      * rewrite list_lookup_insert_ne in Hl' by done.
        rewrite list_lookup_insert_ne by done. by apply Hcol.
  - eexists; split; [done|]. split; [|split]; [|done..]. repeat split; cbn; lia.
  - eexists; split; [done|]. split; [|split]; [|done..]. repeat split; cbn; lia.
Qed.

Lemma run_invariant (es : list (Event T)) : ∀ s,
  scene_invariant s → ∃ s', run es s = Some s' ∧ scene_invariant s'.
Proof.
  induction es as [|e es IH]; intros s Hinv; cbn; [eauto|].
  destruct (step_invariant e s Hinv) as (s1 & -> & Hinv1). cbn. eauto.
Qed.

Lemma reachable_invariant (s : State T) : reachable s → scene_invariant s.
Proof.
  intros (dir & es & Hrun).
  destruct (run_invariant es _ (invariant_initial dir)) as (s' & Hrun' & Hinv).
  congruence.
Qed.

(** X2. No handler ever throws: whatever the order of key events,
    frames, panel edits, model loads and mouse gestures after start-up,
    the run goes through, and it ends with five lights, five markers, five
    helpers and a selection between 0 and 4. *)
Theorem every_run_goes_through (dir : Vector3.t T) (es : list (Event T)) :
  ∃ s, run es (initialState dir) = Some s ∧ rig_of_five s.
Proof.
  destruct (run_invariant es _ (invariant_initial dir))
    as (s & Hrun & Hrig & _).
  eauto.
Qed.

(** X3. In every state the program can reach, each marker sphere has
    the colour of its light: the colour picker writes both, and nothing
    else writes either. *)
Theorem marker_colour_follows_light (s : State T) (i : nat) l sp :
  reachable s →
  lights s !! i = Some l → lightSpheres s !! i = Some sp →
  Mesh.material_color sp = PointLight.color l.
Proof.
  intros Hreach Hl Hsp.
  destruct (reachable_invariant s Hreach) as (_ & Hcol & _).
  destruct (Hcol i l Hl) as (sp' & Hsp' & Hc). congruence.
Qed.

(** X4. From every reachable state a frame completes, and when it is
    over (that is, when the scene is rendered) every marker is where its
    light is and every helper shows its light's colour, whatever the panel
    or the keys did to the lights since the frame before and whatever
    [controls.update()] does to the camera. *)
Theorem every_frame_ends_in_sync
    (delta : T) (o : ControlsOutcome T) (s : State T) :
  reachable s →
  ∃ s', step (Frame delta o) s = Some s' ∧ ∀ i, synced_at s' i.
Proof.
  intros Hreach.
  destruct (reachable_invariant s Hreach) as ((Ll & Ls & Lh & Ha) & _ & _).
  destruct (updateCameraMovement_rig delta s) as (El & Es & Eh & _ & Ea).
  destruct (updateLightMovement_effect delta (updateCameraMovement delta s))
    as (l & s' & _ & Hrun & _ & Hsy & _).
  - unfold rig_complete. rewrite El, Es, Eh. lia.
  - unfold active_in_range. rewrite El, Ea, Ll. done.
  - exists (controls_update o s'). cbn [step]. unfold animate.
    rewrite Hrun. split; [done|].
    intros i. apply controls_update_synced, Hsy.
Qed.
End Runs.

(** ** The colour picker *)
Section ColourPicker.
Context {T : Type} `{JsNumber T} `{JsMath T}.

(** A frame keeps the colour of each marker and of each light. *)
Lemma updateLightMovement_keeps_colours (delta : T) (s s' : State T) i :
  updateLightMovement delta s = Some s' →
  (∀ sp, lightSpheres s !! i = Some sp →
     ∃ sp', lightSpheres s' !! i = Some sp' ∧
            Mesh.material_color sp' = Mesh.material_color sp) ∧
  (∀ l, lights s !! i = Some l →
     ∃ l', lights s' !! i = Some l' ∧
           PointLight.color l' = PointLight.color l).
Proof.
  unfold updateLightMovement.
  destruct (array_get _ _) as [la|] eqn:Ha; [|intros [= <-]; split; eauto].
  intros Hrun. unfold syncLoop in Hrun.
  apply forLoop_syncBody in Hrun as (Hfr & Hls & _ & _ & _ & Hsp).
  cbn in Hfr, Hls, Hsp. split.
  - intros sp Hspi.
    destruct (lookup_lt_is_Some_2 (lightSpheres s') i) as [sp' Hsp'].
    { rewrite Hls. eauto using lookup_lt_Some. }
    exists sp'. split; [done|].
    destruct (Hsp i sp' Hsp') as (sp0 & Hsp0 & ->). congruence.
  - intros l Hl. rewrite Hfr. cbn.
    destruct (decide (i = Z.to_nat (params_activeLight s))) as [->|Hne].
    + unfold array_get in Ha. destruct (_ <? _)%Z; [done|].
      rewrite list_lookup_insert_eq by eauto using lookup_lt_Some.
      eexists. split; [done|]. cbn. congruence.
    + rewrite list_lookup_insert_ne by done. eauto.
Qed.

(** X5. Picking a colour in the folder of light [i] gives that colour
    to the light and to its marker at once and touches nothing else: the
    light keeps position, intensity and distance, the other lights and
    markers are as before, and no helper changes.  The helper of light [i]
    takes the colour over at the next frame. *)
Theorem colour_edit_reaches_light_marker_helper
    (i : nat) (hex : Z) (delta : T) (o : ControlsOutcome T) (s : State T)
    l sp :
  rig_complete s → active_in_range s →
  lights s !! i = Some l → lightSpheres s !! i = Some sp →
  ∃ s1 s2,
    colorChanged i hex s = Some s1 ∧
    lights s1 =
      <[i := PointLight.mk (PointLight.position l) (PointLight.intensity l)
               (PointLight.distance l) (Color_setHex hex)]> (lights s) ∧
    lightSpheres s1 =
      <[i := Mesh.mk (Mesh.position sp) (Color_setHex hex)]> (lightSpheres s) ∧
    lightHelpers s1 = lightHelpers s ∧
    animate delta o s1 = Some s2 ∧
    ∃ l2 sp2 h2,
      lights s2 !! i = Some l2 ∧ lightSpheres s2 !! i = Some sp2 ∧
      lightHelpers s2 !! i = Some h2 ∧
      PointLight.color l2 = Color_setHex hex ∧
      Mesh.material_color sp2 = Color_setHex hex ∧
      PointLightHelper.material_color h2 = Color_setHex hex.
Proof.
  intros [Hs Hh] Hin Hl Hsp.
  assert (i < length (lights s))%nat as Hi by eauto using lookup_lt_Some.
  assert (i < length (lightSpheres s))%nat as Hi' by eauto using lookup_lt_Some.
  set (s1 := set_proxies
               (set_lights s
                  (<[i := PointLight.mk (PointLight.position l)
                            (PointLight.intensity l) (PointLight.distance l)
                            (Color_setHex hex)]> (lights s)))
               (<[i := Mesh.mk (Mesh.position sp) (Color_setHex hex)]>
                  (lightSpheres s))
               (lightHelpers s)).
  assert (colorChanged i hex s = Some s1) as Hc1.
  { unfold colorChanged. rewrite Hl. cbn. rewrite Hsp. done. }
  destruct (updateCameraMovement_rig delta s1) as (El & Es & Eh & _ & Ea).
  destruct (updateLightMovement_effect delta (updateCameraMovement delta s1))
    as (la & s2 & _ & Hrun & _ & Hsy & _).
  { unfold rig_complete. rewrite El, Es, Eh. subst s1; cbn.
    rewrite !length_insert. done. }
  { unfold active_in_range. rewrite El, Ea. subst s1; cbn.
    by rewrite length_insert. }
  exists s1, (controls_update o s2). split; [done|]. do 3 (split; [done|]).
  split; [unfold animate; by rewrite Hrun|].
  cbn [controls_update lights lightSpheres lightHelpers].
  destruct (updateLightMovement_keeps_colours _ _ _ i Hrun) as [Hm Hc].
  destruct (Hc (PointLight.mk (PointLight.position l) (PointLight.intensity l)
                  (PointLight.distance l) (Color_setHex hex)))
    as (l2 & Hl2 & Hcl2).
  { rewrite El. subst s1; cbn. by apply list_lookup_insert_eq. }
  destruct (Hm (Mesh.mk (Mesh.position sp) (Color_setHex hex)))
    as (sp2 & Hsp2 & Hcsp2).
  { rewrite Es. subst s1; cbn. by apply list_lookup_insert_eq. }
  destruct (Hsy i l2 Hl2) as (sp2' & h2 & Hsp2' & Hh2 & _ & Hch).
  cbn in Hcl2, Hcsp2. exists l2, sp2, h2. repeat split; try done. congruence.
Qed.
End ColourPicker.

(** ** Frames with no key held *)
Section IdleFrames.
Context {T : Type} `{JsNumber T} `{JsMath T}.

Lemma moveLight_idle (k : Keys) (c : T) (p : Vector3.t T) :
  lightKeys k = [false; false; false; false; false; false] →
  moveLight k c p = p.
Proof. intros [= Hu Hd Hl Hr Hpu Hpd]. unfold moveLight. by rewrite Hu, Hd, Hl, Hr, Hpu, Hpd. Qed.

Lemma heldDirection_idle (s : State T) :
  movementKeys (keys s) = [false; false; false; false] →
  heldDirection s = Vector3.mk (lit 0) (lit 0) (lit 0).
Proof. intros [= HW HA HS HD]. unfold heldDirection. by rewrite HW, HA, HS, HD. Qed.

Lemma PointLight_set_position_id (l : PointLight.t T) :
  PointLight.set_position l (PointLight.position l) = l.
Proof. by destruct l. Qed.

(** For any arithmetic in which the squared length of the zero vector is
    not above 0. *)
Lemma idle_navigators (delta : T) (s : State T) :
  num_gt (Vector3.lengthSq (Vector3.mk (lit 0) (lit 0) (lit 0))) (lit 0)
    = false →
  idle (keys s) → rig_complete s → navigators_move_nothing delta s.
Proof.
  intros Hzero [Hmove Hlight] Hrig. unfold navigators_move_nothing.
  assert (camera (updateCameraMovement delta s) = camera s ∧
          controls_target (updateCameraMovement delta s) = controls_target s)
    as [Ec Et].
  { rewrite updateCameraMovement_eq, (heldDirection_idle s Hmove), Hzero.
    done. }
  destruct (updateCameraMovement_rig delta s) as (El & Es & Eh & Ek & Ea).
  destruct (updateLightMovement_total delta (updateCameraMovement delta s))
    as [s' Hlm].
  { unfold rig_complete. by rewrite El, Es, Eh. }
  destruct (updateLightMovement_frame _ _ _ Hlm) as (Hfr & _).
  assert (camera s' = camera (updateCameraMovement delta s)) as Ec'
    by (rewrite Hfr; done).
  assert (controls_target s' = controls_target (updateCameraMovement delta s))
    as Et' by (rewrite Hfr; done).
  exists s'. split; [done|]. split; [congruence|]. split; [congruence|].
  assert (lights s' = lights s ∧ (active_in_range s → mirrors s'))
    as [Hls Hmir].
  { assert (Decision (active_in_range s)) as [Hin|Hout]
      by (unfold active_in_range; apply _).
    - destruct (updateLightMovement_effect delta
                  (updateCameraMovement delta s))
        as (l & s'' & Hl & Hlm' & Hfr' & Hsy & _).
      { unfold rig_complete. by rewrite El, Es, Eh. }
      { unfold active_in_range. by rewrite El, Ea. }
      rewrite Hlm in Hlm'. injection Hlm' as <-.
      split; [|intros _; by apply synced_mirrors].
      rewrite Hfr'. cbn [lights set_proxies set_lights].
      rewrite Ek, moveLight_idle, PointLight_set_position_id by done.
      rewrite list_insert_id by done. done.
    - rewrite updateLightMovement_return in Hlm.
      + injection Hlm as <-. done.
      + unfold active_in_range. by rewrite El, Ea. }
  split; [done|]. split; [done|].
  intros o. unfold animate. by rewrite Hlm.
Qed.

End IdleFrames.

(** X6. In a frame during which no key is held the two navigators
    leave the camera, the look target and every light exactly as they
    were, for every elapsed time, in exact arithmetic and in binary64
    alike (a NaN or infinite elapsed time included), and with a light
    selected they end with all markers on their lights; what such a frame
    does to the camera and to the look target is what its
    [controls.update()] does. *)
Theorem idle_navigators_move_nothing :
  (∀ (delta : R) (s : State R),
     idle (keys s) → rig_complete s → navigators_move_nothing delta s) ∧
  (∀ (delta : PrimFloat.float) (s : State PrimFloat.float),
     idle (keys s) → rig_complete s → navigators_move_nothing delta s).
Proof.
  split; intros delta s; apply idle_navigators.
  - destruct (num_gt _ _) eqn:E; [|done].
    apply num_gt_R in E. unfold Vector3.lengthSq in E. cbn in E. lra.
  - reflexivity.
Qed.

(** ** Where the camera keys take the camera *)
Section CameraHeading.
Local Open Scope R_scope.
Implicit Types s : State R.

(** With [camera.up] vertical the requested direction is horizontal. *)
Lemma heldDirection_horizontal s :
  Camera.up (camera s) = vec 0 1 0 → Vector3.y (heldDirection s) = 0.
Proof.
  intros Hup. unfold heldDirection, flatRight, flatForward.
  rewrite Hup. unfold Vector3.normalize, Vector3.divideScalar.
  destruct (KeyW _), (KeyS _), (KeyA _), (KeyD _); cbn; ring.
Qed.

(** X7. In every state the program can reach, the camera keys keep the
    camera and the look target at their height: one call of
    [updateCameraMovement] changes neither Y coordinate, whatever keys are
    held, however the camera is pitched and for every elapsed time. *)
Theorem camera_keys_keep_height (delta : R) s :
  reachable s →
  Vector3.y (Camera.position (camera (updateCameraMovement delta s)))
    = Vector3.y (Camera.position (camera s)) ∧
  Vector3.y (controls_target (updateCameraMovement delta s))
    = Vector3.y (controls_target s).
Proof.
  intros Hreach.
  destruct (reachable_invariant s Hreach) as (_ & _ & Hup).
  pose proof (heldDirection_horizontal s Hup) as Hy.
  rewrite updateCameraMovement_eq.
  destruct (num_gt _ _); [|done].
  unfold Vector3.normalize, Vector3.divideScalar. cbn.
  rewrite Hy. split; ring.
Qed.

(** A unit requested direction is travelled at the camera speed. *)
Lemma displacement_unit (delta : R) s (v : Vector3.t R) :
  heldDirection s = v → Vector3.lengthSq v = 1 →
  displacement delta s = Vector3.multiplyScalar v (5 * delta).
Proof.
  intros Eh E1. unfold displacement.
  rewrite updateCameraMovement_eq, Eh.
  assert ((Vector3.lengthSq v >? lit 0)%js = true) as ->
    by (apply num_gt_R; rewrite E1; cbn; lra).
  rewrite (normalize_of_unit v E1). cbn. apply add_sub_cancel.
Qed.

Lemma flatForward_heading s (dx dy dz : R) :
  Camera.worldDirection (camera s) = Vector3.mk dx dy dz →
  0 < dx * dx + dz * dz →
  flatForward s =
  Vector3.mk (dx / sqrt (dx * dx + dz * dz)) 0 (dz / sqrt (dx * dx + dz * dz)).
Proof.
  intros Hdir Hpos. unfold flatForward, Camera.getWorldDirection.
  rewrite Hdir. unfold Vector3.normalize, Vector3.divideScalar.
  destruct (length_or_1 (Vector3.setY (Vector3.mk dx dy dz) (lit 0)))
    as [[E0 _]|(_ & -> & Hs)].
  - unfold Vector3.lengthSq in E0. cbn in E0. lra.
  - replace (Vector3.lengthSq (Vector3.setY (Vector3.mk dx dy dz) (lit 0)))
      with (dx * dx + dz * dz) in *
      by (unfold Vector3.lengthSq; cbn; ring).
    apply Vector3_eq; cbn; field; lra.
Qed.

Lemma flatRight_heading s (dx dy dz : R) :
  Camera.worldDirection (camera s) = Vector3.mk dx dy dz →
  Camera.up (camera s) = vec 0 1 0 →
  0 < dx * dx + dz * dz →
  flatRight s =
  Vector3.mk (- dz / sqrt (dx * dx + dz * dz)) 0
             (dx / sqrt (dx * dx + dz * dz)).
Proof.
  intros Hdir Hup Hpos. unfold flatRight.
  rewrite (flatForward_heading s dx dy dz Hdir Hpos), Hup.
  assert (0 < sqrt (dx * dx + dz * dz)) as Hs by (apply sqrt_lt_R0; lra).
  assert (sqrt (dx * dx + dz * dz) * sqrt (dx * dx + dz * dz)
          = dx * dx + dz * dz) as Hss by (apply sqrt_sqrt; lra).
  revert Hs Hss. generalize (sqrt (dx * dx + dz * dz)). intros h Hs Hss.
  rewrite normalize_of_unit.
  - apply Vector3_eq; cbn; field; lra.
  - unfold Vector3.lengthSq; cbn.
    replace ((0 * 0 - dz / h * 1) * (0 * 0 - dz / h * 1) +
             (dz / h * 0 - dx / h * 0) * (dz / h * 0 - dx / h * 0) +
             (dx / h * 1 - 0 * 0) * (dx / h * 1 - 0 * 0))
      with ((dx * dx + dz * dz) / (h * h)) by (field; lra).
    rewrite Hss. field. lra.
Qed.

(** X8. With [camera.up] vertical and the camera not looking straight
    up or down, the forward key moves the camera along the horizontal part
    of its viewing direction and the right key along that direction turned
    a quarter turn about the vertical, each by [5 * delta]; the pitch of
    the camera (the Y part of its direction) has no influence. *)
Theorem forward_and_right_follow_heading (delta dx dy dz : R) s :
  Camera.worldDirection (camera s) = Vector3.mk dx dy dz →
  Camera.up (camera s) = vec 0 1 0 →
  0 < dx * dx + dz * dz →
  (movementKeys (keys s) = [true; false; false; false] →
   displacement delta s =
   Vector3.multiplyScalar
     (Vector3.mk (dx / sqrt (dx * dx + dz * dz)) 0
                 (dz / sqrt (dx * dx + dz * dz))) (5 * delta)) ∧
  (movementKeys (keys s) = [false; false; false; true] →
   displacement delta s =
   Vector3.multiplyScalar
     (Vector3.mk (- dz / sqrt (dx * dx + dz * dz)) 0
                 (dx / sqrt (dx * dx + dz * dz))) (5 * delta)).
Proof.
  intros Hdir Hup Hpos.
  pose proof (flatForward_heading s dx dy dz Hdir Hpos) as Ef.
  pose proof (flatRight_heading s dx dy dz Hdir Hup Hpos) as Er.
  assert (0 < sqrt (dx * dx + dz * dz)) as Hs by (apply sqrt_lt_R0; lra).
  assert (sqrt (dx * dx + dz * dz) * sqrt (dx * dx + dz * dz)
          = dx * dx + dz * dz) as Hss by (apply sqrt_sqrt; lra).
  revert Ef Er Hs Hss. generalize (sqrt (dx * dx + dz * dz)).
  intros h Ef Er Hs Hss.
  assert (∀ a b : R, a * a + b * b = dx * dx + dz * dz →
            Vector3.lengthSq (Vector3.mk (a / h) 0 (b / h)) = 1) as Hunit.
  { intros a b E. unfold Vector3.lengthSq; cbn.
    replace (a / h * (a / h) + 0 * 0 + b / h * (b / h))
      with ((a * a + b * b) / (h * h)) by (field; lra).
    rewrite E, Hss. field. lra. }
  split; intros [= HW HA HS HD]; apply displacement_unit.
  - unfold heldDirection. rewrite HW, HA, HS, HD, Ef.
    apply Vector3_eq; cbn; ring.
  - by apply Hunit.
  - unfold heldDirection. rewrite HW, HA, HS, HD, Er.
    apply Vector3_eq; cbn; ring.
  - replace (- dz / h) with ((- dz) / h) by (field; lra).
    apply Hunit. ring.
Qed.

Lemma normalize_scaled (v : Vector3.t R) (c : R) :
  0 < c →
  Vector3.normalize (Vector3.multiplyScalar v c) = Vector3.normalize v.
Proof.
  intros Hc. pose proof (lengthSq_nonneg v) as Hq.
  destruct Hq as [Hq|Hq].
  - unfold Vector3.normalize, Vector3.divideScalar.
    destruct (length_or_1 (Vector3.multiplyScalar v c))
      as [[E0 _]|(_ & -> & _)].
    { rewrite lengthSq_multiplyScalar in E0.
      assert (0 < c * c * Vector3.lengthSq v)
        by (repeat apply Rmult_lt_0_compat; lra).
      lra. }
    destruct (length_or_1 v) as [[E0 _]|(_ & -> & Hs)]; [lra|].
    rewrite lengthSq_multiplyScalar.
    replace (c * c * Vector3.lengthSq v)
      with (Rsqr c * Vector3.lengthSq v) by (unfold Rsqr; ring).
    rewrite sqrt_mult; [|apply Rle_0_sqr|by left].
    rewrite sqrt_Rsqr by (by left).
    revert Hs. generalize (sqrt (Vector3.lengthSq v)). intros h Hs.
    apply Vector3_eq; cbn; field; lra.
  - symmetry in Hq. destruct (lengthSq_zero v Hq) as (Hx & Hy & Hz).
    assert (Vector3.multiplyScalar v c = v) as ->; [|done].
    apply Vector3_eq; cbn; rewrite ?Hx, ?Hy, ?Hz; ring.
Qed.

(** X9. The camera keys depend on the camera's orientation through its
    heading only: two viewing directions whose horizontal parts point the
    same way give the same displacement, for every key state, every
    [camera.up] and every elapsed time. *)
Theorem translation_depends_on_heading_only
    (delta c : R) (d1 d2 : Vector3.t R) s :
  0 < c →
  Vector3.x d2 = c * Vector3.x d1 → Vector3.z d2 = c * Vector3.z d1 →
  displacement delta (turned d2 s) = displacement delta (turned d1 s).
Proof.
  intros Hc Hx Hz.
  assert (flatForward (turned d2 s) = flatForward (turned d1 s)) as Ef.
  { unfold flatForward, turned, orbit, Camera.getWorldDirection. cbn.
    rewrite <- (normalize_scaled (Vector3.setY d1 0) c Hc). f_equal.
    apply Vector3_eq; cbn; rewrite ?Hx, ?Hz; ring. }
  assert (heldDirection (turned d2 s) = heldDirection (turned d1 s)) as Eh.
  { unfold heldDirection, flatRight. by rewrite Ef. }
  unfold displacement. rewrite !updateCameraMovement_eq, Eh.
  by destruct (num_gt _ _).
Qed.
End CameraHeading.

(** ** Framing the loaded model *)
Section Framing.
Local Open Scope R_scope.
Implicit Types s : State R.

Lemma isEmpty_false (b : Box3.t R) :
  Box3.isEmpty b = false ↔
  Vector3.x (Box3.min b) <= Vector3.x (Box3.max b) ∧
  Vector3.y (Box3.min b) <= Vector3.y (Box3.max b) ∧
  Vector3.z (Box3.min b) <= Vector3.z (Box3.max b).
Proof.
  unfold Box3.isEmpty. cbn.
  destruct (Rlt_dec _ _), (Rlt_dec _ _), (Rlt_dec _ _); cbn;
    split; try done; try lra; intros (? & ? & ?); lra.
Qed.

(** The largest extent of the box, as the callback computes it. *)
Lemma maxDim_bounds (a b c : R) :
  a <= Rmax (Rmax a b) c ∧ b <= Rmax (Rmax a b) c ∧ c <= Rmax (Rmax a b) c ∧
  (Rmax (Rmax a b) c = a ∨ Rmax (Rmax a b) c = b ∨ Rmax (Rmax a b) c = c).
Proof.
  unfold Rmax. destruct (Rle_dec a b); destruct (Rle_dec _ c);
    repeat split; try lra; auto.
Qed.

(** Lines 126-138 on a non-empty bounding box. *)
Lemma frameModel_nonempty (box : Box3.t R) (dir : Vector3.t R) s :
  Box3.isEmpty box = false →
  let s' := frameModel box dir s in
  let lo := Box3.min box in
  let hi := Box3.max box in
  let d := 9 / 5 * Rmax (Rmax (Vector3.x hi - Vector3.x lo)
                              (Vector3.y hi - Vector3.y lo))
                        (Vector3.z hi - Vector3.z lo) in
  controls_target s' =
    Vector3.mk ((Vector3.x lo + Vector3.x hi) / 2)
               ((Vector3.y lo + Vector3.y hi) / 2)
               ((Vector3.z lo + Vector3.z hi) / 2) ∧
  Camera.position (camera s') =
    Vector3.add (controls_target s') (Vector3.mk d d d) ∧
  0 <= d ∧
  (0 < d →
   Vector3.x hi < Vector3.x (Camera.position (camera s')) ∧
   Vector3.y hi < Vector3.y (Camera.position (camera s')) ∧
   Vector3.z hi < Vector3.z (Camera.position (camera s'))) ∧
  (d = 0 ↔ lo = hi) ∧
  (d = 0 → Camera.position (camera s') = controls_target s').
Proof.
  intros Hne. cbv zeta.
  pose proof (proj1 (isEmpty_false box) Hne) as (Hx & Hy & Hz).
  unfold frameModel, Box3.getSize, Box3.getCenter. rewrite Hne.
  destruct box as [[lx ly lz] [hx hy hz]]. cbn in Hx, Hy, Hz |- *.
  destruct (maxDim_bounds (hx - lx) (hy - ly) (hz - lz))
    as (Bx & By & Bz & Bcase).
  revert Bx By Bz Bcase.
  generalize (Rmax (Rmax (hx - lx) (hy - ly)) (hz - lz)). intros m Bx By Bz Bcase.
  split; [apply Vector3_eq; cbn; field|].
  split; [apply Vector3_eq; cbn; field|].
  split; [lra|]. split; [|split].
  - intros Hd. repeat split; lra.
  - split.
    + intros Hd. f_equal; lra.
    + intros [= Ex Ey Ez]. destruct Bcase as [-> | [-> | ->]]; lra.
  - intros Hd. apply Vector3_eq; cbn; lra.
Qed.

(** X10. When a model with a non-empty bounding box has loaded, lines
    126-138 of the callback set the look target to the centre of the box
    and the camera off it by the same distance [d] along X, Y and Z, where
    [d] is 1.8 times the largest extent of the box.  If the box has any
    extent, that puts the camera outside it, beyond the maximal corner in
    all three coordinates; if it has none (a single point), on the target.
    This is the state the callback hands to [controls.update()] (line
    139), which has the last word on camera and target. *)
Theorem loaded_model_is_framed
    (box : Box3.t R) (dir : Vector3.t R) (o : ControlsOutcome R) s :
  Box3.isEmpty box = false →
  let s' := frameModel box dir s in
  let lo := Box3.min box in
  let hi := Box3.max box in
  let d := 9 / 5 * Rmax (Rmax (Vector3.x hi - Vector3.x lo)
                              (Vector3.y hi - Vector3.y lo))
                        (Vector3.z hi - Vector3.z lo) in
  step (ModelLoaded box dir o) s = Some (controls_update o s') ∧
  controls_target s' =
    Vector3.mk ((Vector3.x lo + Vector3.x hi) / 2)
               ((Vector3.y lo + Vector3.y hi) / 2)
               ((Vector3.z lo + Vector3.z hi) / 2) ∧
  Camera.position (camera s') =
    Vector3.add (controls_target s') (Vector3.mk d d d) ∧
  0 <= d ∧
  (0 < d →
   Vector3.x hi < Vector3.x (Camera.position (camera s')) ∧
   Vector3.y hi < Vector3.y (Camera.position (camera s')) ∧
   Vector3.z hi < Vector3.z (Camera.position (camera s'))) ∧
  (d = 0 ↔ lo = hi) ∧
  (d = 0 → Camera.position (camera s') = controls_target s').
Proof.
  intros Hne. split; [done|]. by apply frameModel_nonempty.
Qed.

Lemma isEmpty_true (b : Box3.t R) :
  Box3.isEmpty b = true ↔
  Vector3.x (Box3.max b) < Vector3.x (Box3.min b) ∨
  Vector3.y (Box3.max b) < Vector3.y (Box3.min b) ∨
  Vector3.z (Box3.max b) < Vector3.z (Box3.min b).
Proof.
  destruct (Box3.isEmpty b) eqn:E.
  - split; [intros _|done].
    destruct (Rlt_le_dec (Vector3.x (Box3.max b)) (Vector3.x (Box3.min b)));
      [by left|].
    destruct (Rlt_le_dec (Vector3.y (Box3.max b)) (Vector3.y (Box3.min b)));
      [by right; left|].
    destruct (Rlt_le_dec (Vector3.z (Box3.max b)) (Vector3.z (Box3.min b)));
      [by right; right|].
    assert (Box3.isEmpty b = false) by (by apply isEmpty_false).
    congruence.
  - apply isEmpty_false in E as (? & ? & ?).
    split; [done|]. intros [?|[?|?]]; lra.
Qed.

(** X11. For an empty bounding box (some maximum below its minimum, as
    for a model without geometry) lines 126-138 of the callback put camera
    and look target both at the origin, in exact arithmetic and, for the
    empty box of three.js (minimum +Infinity, maximum -Infinity), in
    binary64.  This is the state the callback hands to
    [controls.update()] (line 139), which has the last word on camera and
    target. *)
Theorem empty_model_frames_origin :
  (∀ (box : Box3.t R) (dir : Vector3.t R) (o : ControlsOutcome R)
     (s : State R),
     Box3.isEmpty box = true →
     step (ModelLoaded box dir o) s
       = Some (controls_update o (frameModel box dir s)) ∧
     Camera.position (camera (frameModel box dir s)) = Vector3.mk 0 0 0 ∧
     controls_target (frameModel box dir s) = Vector3.mk 0 0 0) ∧
  (∀ (dir : Vector3.t PrimFloat.float) (o : ControlsOutcome PrimFloat.float)
     (s : State PrimFloat.float),
     let inf := PrimFloat.infinity in
     let ninf := PrimFloat.neg_infinity in
     let box := Box3.mk (Vector3.mk inf inf inf) (Vector3.mk ninf ninf ninf) in
     Box3.isEmpty box = true ∧
     step (ModelLoaded box dir o) s
       = Some (controls_update o (frameModel box dir s)) ∧
     Camera.position (camera (frameModel box dir s)) = vec 0 0 0 ∧
     controls_target (frameModel box dir s) = vec 0 0 0).
Proof.
  split.
  - intros box dir o s He. split; [done|].
    unfold frameModel, Box3.getSize, Box3.getCenter. rewrite He.
    cbn. unfold Rmax. destruct (Rle_dec 0 0); [|lra].
    destruct (Rle_dec 0 0); [|lra].
    split; [apply Vector3_eq; cbn; lra|done].
  - intros dir o s. cbv zeta. repeat split; vm_compute; reflexivity.
Qed.
End Framing.

(** ** The light navigator and the frame in closed form *)
Section ClosedForm.
Context {T : Type} `{JsNumber T} `{JsMath T}.

(** The synchronisation loop is the index-wise mirror of the lights. *)
Lemma syncLoop_exact (s : State T) :
  rig_complete s →
  syncLoop s =
  Some (set_proxies s (imap (mirror_marker (lights s)) (lightSpheres s))
                      (imap (mirror_helper (lights s)) (lightHelpers s))).
Proof.
  intros Hrig. destruct (syncLoop_total s Hrig) as [s' Hrun].
  rewrite Hrun. f_equal. unfold syncLoop in Hrun.
  destruct (forLoop_syncBody _ _ _ _ Hrun)
    as (Hfr & Hls & Hlh & Hin & Hout & Hcol).
  assert (lights s' = lights s) as El by (rewrite Hfr; done).
  rewrite Hfr. f_equal.
  - apply list_eq. intros i. rewrite list_lookup_imap.
    destruct (lights s !! i) as [l|] eqn:Hl.
    + assert (i < length (lights s))%nat as Hi by eauto using lookup_lt_Some.
      assert (0 ≤ i < 0 + length (lights s))%nat as Hr by lia.
      destruct (Hin i Hr l) as (sp' & h' & Hsp' & _ & Hp & _);
        [by rewrite El|].
      destruct (Hcol i sp' Hsp') as (sp & Hsp & Hc).
      rewrite Hsp', Hsp. cbn. unfold mirror_marker. rewrite Hl.
      destruct sp'; cbn in *. by subst.
    + apply lookup_ge_None in Hl.
      destruct (Hout i) as [-> _]; [lia|].
      destruct (lightSpheres s !! i) as [sp|] eqn:Hsp; [|done].
      cbn. unfold mirror_marker.
      by rewrite (proj2 (lookup_ge_None (lights s) i)).
  - apply list_eq. intros i. rewrite list_lookup_imap.
    destruct (lights s !! i) as [l|] eqn:Hl.
    + assert (i < length (lights s))%nat as Hi by eauto using lookup_lt_Some.
      assert (0 ≤ i < 0 + length (lights s))%nat as Hr by lia.
      destruct (Hin i Hr l) as (sp' & h' & _ & Hh' & _ & Hc);
        [by rewrite El|].
      rewrite Hh'.
      destruct (lookup_lt_is_Some_2 (lightHelpers s) i) as [h ->].
      { rewrite <- Hlh. eauto using lookup_lt_Some. }
      cbn. unfold mirror_helper. rewrite Hl.
      destruct h'; cbn in *. by subst.
    + apply lookup_ge_None in Hl.
      destruct (Hout i) as [_ ->]; [lia|].
      destruct (lightHelpers s !! i) as [h|] eqn:Hh; [|done].
      cbn. unfold mirror_helper.
      by rewrite (proj2 (lookup_ge_None (lights s) i)).
Qed.

(** One call of [updateLightMovement] in closed form. *)
Lemma updateLightMovement_exact (delta : T) (s : State T) :
  rig_complete s →
  updateLightMovement delta s =
  Some (set_proxies (set_lights s (lightsAfter delta s))
          (markersAfter delta s) (helpersAfter delta s)).
Proof.
  intros [Hs Hh].
  unfold updateLightMovement, markersAfter, helpersAfter, lightsAfter.
  destruct (array_get _ _) as [l|] eqn:Ha.
  - rewrite syncLoop_exact; [reflexivity|].
    split; cbn; rewrite length_insert; done.
  - by destruct s.
Qed.

Lemma mirror_marker_twice (l1 l2 : list (PointLight.t T)) sps :
  length l1 = length l2 →
  imap (mirror_marker l2) (imap (mirror_marker l1) sps)
  = imap (mirror_marker l2) sps.
Proof.
  intros Hlen. apply list_eq. intros i. rewrite !list_lookup_imap.
  destruct (sps !! i) as [sp|]; [|done]. cbn. f_equal.
  unfold mirror_marker.
  destruct (l2 !! i) as [b|] eqn:H2; destruct (l1 !! i) as [a|] eqn:H1;
    try done.
  apply lookup_ge_None in H2. apply lookup_lt_Some in H1. lia.
Qed.

Lemma mirror_helper_twice (l1 l2 : list (PointLight.t T)) hs :
  length l1 = length l2 →
  imap (mirror_helper l2) (imap (mirror_helper l1) hs)
  = imap (mirror_helper l2) hs.
Proof.
  intros Hlen. apply list_eq. intros i. rewrite !list_lookup_imap.
  destruct (hs !! i) as [h|]; [|done]. cbn. f_equal.
  unfold mirror_helper.
  destruct (l2 !! i) as [b|] eqn:H2; destruct (l1 !! i) as [a|] eqn:H1;
    try done.
  apply lookup_ge_None in H2. apply lookup_lt_Some in H1. lia.
Qed.

(** The requested direction depends on the keys and on the camera's
    orientation only, not on what the scratch vectors hold. *)
Lemma heldDirection_ext (s1 s2 : State T) :
  keys s1 = keys s2 →
  Camera.worldDirection (camera s1) = Camera.worldDirection (camera s2) →
  Camera.up (camera s1) = Camera.up (camera s2) →
  heldDirection s1 = heldDirection s2.
Proof.
  intros Ek Ed Eu.
  unfold heldDirection, flatRight, flatForward, Camera.getWorldDirection,
    Vector3.crossVectors, Vector3.set.
  by rewrite Ek, Ed, Eu.
Qed.

Lemma length_lightsAfter (t : T) (s : State T) :
  length (lightsAfter t s) = length (lights s).
Proof.
  unfold lightsAfter. destruct (array_get _ _); [|done]. apply length_insert.
Qed.
End ClosedForm.

(** ** Frame-rate independence *)
Section FrameRate.
Local Open Scope R_scope.
Implicit Types s : State R.

Lemma updateCameraMovement_velocity (delta : R) s :
  Camera.position (camera (updateCameraMovement delta s))
    = Vector3.add (Camera.position (camera s))
        (Vector3.multiplyScalar (velocity s) delta) ∧
  controls_target (updateCameraMovement delta s)
    = Vector3.add (controls_target s)
        (Vector3.multiplyScalar (velocity s) delta).
Proof.
  rewrite updateCameraMovement_eq. unfold velocity.
  destruct (num_gt _ _); split; apply Vector3_eq; cbn; ring.
Qed.

Lemma array_get_insert {A} (l : list A) (a : Z) (x y : A) :
  array_get l a = Some x →
  array_get (<[Z.to_nat a := y]> l) a = Some y.
Proof.
  unfold array_get. destruct (a <? 0)%Z; [done|]. intros Hl.
  apply list_lookup_insert_eq. eauto using lookup_lt_Some.
Qed.

Lemma lightsAfter_compose (d t : R) s s1 :
  keys s1 = keys s → params_activeLight s1 = params_activeLight s →
  lights s1 = lightsAfter d s →
  lightsAfter t s1 = lightsAfter (d + t) s ∧
  (is_Some (array_get (lights s1) (params_activeLight s1)) ↔
   is_Some (array_get (lights s) (params_activeLight s))).
Proof.
  intros Ek Ea El. unfold lightsAfter in *. rewrite Ea, Ek, El.
  destruct (array_get (lights s) (params_activeLight s)) as [l|] eqn:Hl.
  - rewrite (array_get_insert _ _ l _ Hl). split; [|split; eauto].
    rewrite list_insert_insert_eq. f_equal.
    rewrite !moveLight_R. unfold PointLight.set_position. cbn. f_equal.
    apply Vector3_eq; cbn; ring.
  - rewrite Hl. done.
Qed.

(** Calls made at one velocity add that velocity times their total
    elapsed time to the camera position and to the look target. *)
Lemma calls_at_velocity (calls : list (R * State R)) (v : Vector3.t R) :
  Forall (λ c, velocity c.2 = v) calls →
  totalDisplacement calls = Vector3.multiplyScalar v (elapsed calls.*1) ∧
  totalTargetShift calls = Vector3.multiplyScalar v (elapsed calls.*1).
Proof.
  induction 1 as [|[d s] calls Hv _ [IHp IHt]].
  - split; apply Vector3_eq; cbn; ring.
  - destruct (updateCameraMovement_velocity d s) as [Ep Et].
    cbn [totalDisplacement totalTargetShift foldr fst snd].
    fold (totalDisplacement calls). fold (totalTargetShift calls).
    rewrite IHp, IHt. unfold displacement, targetShift.
    rewrite Ep, Et, !add_sub_cancel. cbn in Hv. rewrite Hv.
    change (elapsed ((d, s) :: calls).*1) with (d + elapsed calls.*1).
    split; apply Vector3_eq; cbn; ring.
Qed.

(** The light rig after one frame, in closed form. *)
Lemma animate_rigAdvanced (delta : R) (o : ControlsOutcome R) s :
  rig_complete s →
  ∃ s', animate delta o s = Some s' ∧ rigAdvanced delta s s' ∧
        rig_complete s'.
Proof.
  intros Hrig. pose proof Hrig as [Hs Hh].
  destruct (updateCameraMovement_rig delta s) as (El & Es & Eh & Ek & Ea).
  unfold animate. rewrite updateLightMovement_exact
    by (unfold rig_complete; by rewrite El, Es, Eh).
  eexists. split; [done|].
  assert (lightsAfter delta (updateCameraMovement delta s)
          = lightsAfter delta s) as ELa
    by (unfold lightsAfter; by rewrite El, Ek, Ea).
  assert (markersAfter delta (updateCameraMovement delta s)
          = markersAfter delta s) as EMa
    by (unfold markersAfter; by rewrite ELa, El, Es, Ea).
  assert (helpersAfter delta (updateCameraMovement delta s)
          = helpersAfter delta s) as EHa
    by (unfold helpersAfter; by rewrite ELa, El, Eh, Ea).
  split.
  - unfold rigAdvanced. cbn. by rewrite ELa, EMa, EHa.
  - split; cbn; rewrite ELa, ?EMa, ?EHa, length_lightsAfter.
    + unfold markersAfter. destruct (array_get _ _); [|done].
      by rewrite length_imap.
    + unfold helpersAfter. destruct (array_get _ _); [|done].
      by rewrite length_imap.
Qed.

Lemma rigAdvanced_compose (d t : R) s s1 s2 :
  rigAdvanced d s s1 → rigAdvanced t s1 s2 → rigAdvanced (d + t) s s2.
Proof.
  intros (Hk & Ha & Hl & Hm & Hh) (Hk' & Ha' & Hl' & Hm' & Hh').
  destruct (lightsAfter_compose d t s s1 Hk Ha Hl) as [ELa Hsome].
  unfold rigAdvanced.
  rewrite Hk', Ha', Hl', Hm', Hh'.
  repeat split; try done.
  - unfold markersAfter. rewrite ELa, Hm.
    destruct (array_get (lights s1) _) as [l1|] eqn:H1;
      destruct (array_get (lights s) _) as [l|] eqn:H0.
    + unfold markersAfter. rewrite H0. apply mirror_marker_twice.
      by rewrite !length_lightsAfter.
    + destruct (proj1 Hsome) as [? ?]; [by eexists|done].
    + destruct (proj2 Hsome) as [? ?]; [by eexists|done].
    + unfold markersAfter. by rewrite H0.
  - unfold helpersAfter. rewrite ELa, Hh.
    destruct (array_get (lights s1) _) as [l1|] eqn:H1;
      destruct (array_get (lights s) _) as [l|] eqn:H0.
    + unfold helpersAfter. rewrite H0. apply mirror_helper_twice.
      by rewrite !length_lightsAfter.
    + destruct (proj1 Hsome) as [? ?]; [by eexists|done].
    + destruct (proj2 Hsome) as [? ?]; [by eexists|done].
    + unfold helpersAfter. by rewrite H0.
Qed.

Lemma rigAdvanced_plus_0 (t : R) s s' :
  rigAdvanced t s s' → rigAdvanced (t + 0) s s'.
Proof. by rewrite Rplus_0_r. Qed.

(** The light rig after any run of at least one frame, in closed
    form. *)
Lemma frames_rigAdvanced (fs : list (R * ControlsOutcome R)) : ∀ s,
  rig_complete s → fs ≠ [] →
  ∃ s', frames fs s = Some s' ∧ rigAdvanced (elapsed fs.*1) s s'.
Proof.
  induction fs as [|[d o] fs IH]; intros s Hrig Hne; [done|].
  destruct (animate_rigAdvanced d o s Hrig) as (s1 & Hrun & Hadv & Hrig1).
  cbn [frames]. rewrite Hrun. cbn.
  destruct fs as [|f' fs'].
  - exists s1. split; [done|]. unfold elapsed; cbn.
    by apply rigAdvanced_plus_0.
  - destruct (IH s1 Hrig1) as (s' & Hrest & Hadv'); [done|].
    exists s'. split; [done|].
    change (elapsed ((d, o) :: f' :: fs').*1)
      with (d + elapsed (f' :: fs').*1).
    by apply (rigAdvanced_compose d _ s s1 s').
Qed.
End FrameRate.

(** ** How the parts of a frame compose *)
Section Composition.
Context {T : Type} `{JsNumber T} `{JsMath T}.

Lemma updateCameraMovement_set_rig (delta : T) (s : State T) ls sps hs :
  updateCameraMovement delta (set_proxies (set_lights s ls) sps hs)
  = set_proxies (set_lights (updateCameraMovement delta s) ls) sps hs.
Proof.
  rewrite !updateCameraMovement_eq.
  rewrite (heldDirection_ext (set_proxies (set_lights s ls) sps hs) s)
    by done.
  by destruct (num_gt _ _).
Qed.

(** X12. The synchronisation loop in closed form: on a rig in which
    every light has its marker and helper, it returns the state in which
    marker [i] has the position of light [i] and its own colour, helper
    [i] has the colour of light [i], markers and helpers beyond the last
    light are as they were, and nothing else has changed. *)
Theorem sync_loop_is_indexwise_mirror (s : State T) :
  rig_complete s →
  syncLoop s =
  Some (set_proxies s (imap (mirror_marker (lights s)) (lightSpheres s))
                      (imap (mirror_helper (lights s)) (lightHelpers s))).
Proof. apply syncLoop_exact. Qed.

(** X13. The two navigators act on separate parts of the state: calling
    [updateLightMovement] before [updateCameraMovement] gives the same
    state as the order [animate] uses, even with different elapsed times,
    in every arithmetic. *)
Theorem navigators_commute (d1 d2 : T) (s : State T) :
  rig_complete s →
  updateLightMovement d1 (updateCameraMovement d2 s)
  = updateCameraMovement d2 <$> updateLightMovement d1 s.
Proof.
  intros Hrig.
  destruct (updateCameraMovement_rig d2 s) as (El & Es & Eh & Ek & Ea).
  rewrite !updateLightMovement_exact; [|done|].
  - cbn. f_equal. rewrite updateCameraMovement_set_rig.
    assert (lightsAfter d1 (updateCameraMovement d2 s) = lightsAfter d1 s)
      as ELa by (unfold lightsAfter; by rewrite El, Ek, Ea).
    unfold markersAfter, helpersAfter. by rewrite ELa, El, Es, Eh, Ea.
  - unfold rig_complete. by rewrite El, Es, Eh.
Qed.
End Composition.

Section FrameRateTheorem.
Local Open Scope R_scope.

(** X14. Movement is independent of the frame rate, in exact real
    arithmetic.  A run of one or more frames moves the selected light by
    what its keys give for the total elapsed time, and it ends with the
    same lights, markers and helpers as a single frame of the total time,
    whatever [controls.update()] does in each frame.  The calls of
    [updateCameraMovement] made while the camera has one and the same
    velocity add that velocity times their total elapsed time to the
    camera position, and as much to the look target, however the time is
    split among them. *)
Theorem frames_depend_on_total_time_only
    (fs : list (R * ControlsOutcome R)) (o : ControlsOutcome R)
    (calls : list (R * State R)) (v : Vector3.t R) (s : State R) :
  rig_complete s → fs ≠ [] →
  (∃ s1 s2,
     frames fs s = Some s1 ∧ frames [(elapsed fs.*1, o)] s = Some s2 ∧
     rigAdvanced (elapsed fs.*1) s s1 ∧
     lights s1 = lights s2 ∧ lightSpheres s1 = lightSpheres s2 ∧
     lightHelpers s1 = lightHelpers s2) ∧
  (Forall (λ c, velocity c.2 = v) calls →
   totalDisplacement calls = Vector3.multiplyScalar v (elapsed calls.*1) ∧
   totalTargetShift calls = Vector3.multiplyScalar v (elapsed calls.*1)).
Proof.
  intros Hrig Hne. split; [|apply calls_at_velocity].
  destruct (frames_rigAdvanced fs s Hrig Hne) as (s1 & Hrun1 & Hadv1).
  destruct (frames_rigAdvanced [(elapsed fs.*1, o)] s Hrig)
    as (s2 & Hrun2 & Hadv2); [done|].
  exists s1, s2. do 3 (split; [done|]).
  change (elapsed [(elapsed fs.*1, o)].*1) with (elapsed fs.*1 + 0) in Hadv2.
  rewrite Rplus_0_r in Hadv2.
  destruct Hadv1 as (_ & _ & Hl & Hm & Hh).
  destruct Hadv2 as (_ & _ & Hl' & Hm' & Hh').
  repeat split; congruence.
Qed.
End FrameRateTheorem.

Section CameraSpeed.
Local Open Scope R_scope.
Implicit Types s : State R.

(** X15. With [camera.up] vertical and the camera not looking straight
    up or down, one call of [updateCameraMovement] moves the camera by
    exactly [5 * |delta|] as soon as forward/back or left/right has a net
    request, whichever keys make it up (so a diagonal is as fast as an
    axis), and by nothing when both cancel. *)
Theorem camera_speed_is_constant (delta dx dy dz : R) s :
  Camera.worldDirection (camera s) = Vector3.mk dx dy dz →
  Camera.up (camera s) = vec 0 1 0 →
  0 < dx * dx + dz * dz →
  Vector3.length (displacement delta s) =
  if ((axis (KeyW (keys s)) (KeyS (keys s)) =? 0)
      && (axis (KeyD (keys s)) (KeyA (keys s)) =? 0))%Z
  then 0 else 5 * Rabs delta.
Proof.
  intros Hdir Hup Hpos.
  pose proof (flatForward_heading s dx dy dz Hdir Hpos) as Ef.
  pose proof (flatRight_heading s dx dy dz Hdir Hup Hpos) as Er.
  assert (0 < sqrt (dx * dx + dz * dz)) as Hs by (apply sqrt_lt_R0; lra).
  assert (sqrt (dx * dx + dz * dz) * sqrt (dx * dx + dz * dz)
          = dx * dx + dz * dz) as Hss by (apply sqrt_sqrt; lra).
  revert Ef Er Hs Hss. generalize (sqrt (dx * dx + dz * dz)).
  intros h Ef Er Hs Hss.
  assert (Vector3.lengthSq (flatForward s) = 1) as Ff.
  { rewrite Ef. unfold Vector3.lengthSq; cbn.
    replace (dx / h * (dx / h) + 0 * 0 + dz / h * (dz / h))
      with ((dx * dx + dz * dz) / (h * h)) by (field; lra).
    rewrite Hss. field. lra. }
  assert (Vector3.lengthSq (flatRight s) = 1) as Fr.
  { rewrite Er. unfold Vector3.lengthSq; cbn.
    replace (- dz / h * (- dz / h) + 0 * 0 + dx / h * (dx / h))
      with ((dx * dx + dz * dz) / (h * h)) by (field; lra).
    rewrite Hss. field. lra. }
  rewrite displacement_length.
  pose proof (lengthSq_heldDirection s) as El. rewrite Ff, Fr in El.
  replace (Rabs (5 * delta)) with (5 * Rabs delta)
    by (rewrite Rabs_mult, (Rabs_pos_eq 5); lra).
  destruct (KeyW (keys s)), (KeyS (keys s)), (KeyA (keys s)), (KeyD (keys s));
    cbn [axis Z.eqb andb] in *;
    (rewrite not_moving by lra) || (rewrite (proj2 (moving_iff s)) by lra);
    done.
Qed.
End CameraSpeed.

(** ** The further theorems at concrete states *)
Section FurtherInstances.
Local Abbreviation F := PrimFloat.float.
Local Open Scope R_scope.

Lemma key_flag_after_a_run :
  let o : ControlsOutcome F :=
    mkControlsOutcome (vec 4 6 9) (vec 0 0 (-1)) (vec 0 1 (-2)) in
  let es : list (Event F) :=
    [KeyDown "KeyW"; KeyDown "Space"; Frame (lit 1) o; KeyUp "KeyW";
     KeyDown "KeyW"; KeyUp "ArrowUp"] in
  key_in "KeyW" = true ∧
  ∃ s', run es (initialState (vec 0 0 (-1))) = Some s' ∧
        key_get (keys s') "KeyW" = Some true.
Proof.
  cbv zeta. split; [reflexivity|].
  destruct (run [KeyDown "KeyW"; KeyDown "Space";
                 Frame (lit 1)
                   (mkControlsOutcome (vec 4 6 9) (vec 0 0 (-1))
                      (vec 0 1 (-2)));
                 KeyUp "KeyW"; KeyDown "KeyW"; KeyUp "ArrowUp"]
              (initialState (vec 0 0 (-1)) : State F)) as [s'|] eqn:Hrun.
  - exists s'. split; [reflexivity|].
    exact (key_flag_is_last_event _ _ s' "KeyW" eq_refl Hrun).
  - vm_compute in Hrun. discriminate Hrun.
Defined.

Lemma marker_colour_after_picking :
  let o : ControlsOutcome F :=
    mkControlsOutcome (vec 4 6 9) (vec 0 0 (-1)) (vec 0 1 (-2)) in
  let es : list (Event F) :=
    [KeyDown "ArrowRight"; PanelColor 1 16744448; Frame (lit 1 / lit 60)%js o;
     PickLight "Light 2"; PanelNumber 1 Intensity (lit 3);
     Frame (lit 1 / lit 60)%js o] in
  ∃ s l sp,
    run es (initialState (vec 0 0 (-1))) = Some s ∧ reachable s ∧
    lights s !! 1%nat = Some l ∧ lightSpheres s !! 1%nat = Some sp ∧
    PointLight.color l = Color_setHex 16744448 ∧
    Mesh.material_color sp = PointLight.color l.
Proof.
  cbv zeta. eexists _, _, _.
  split; [vm_compute; reflexivity|].
  match goal with
  | |- reachable ?s ∧ _ =>
      assert (reachable s) as Hreach
        by (exists (vec 0 0 (-1)),
              [KeyDown "ArrowRight"; PanelColor 1 16744448;
               Frame (lit 1 / lit 60)%js
                 (mkControlsOutcome (vec 4 6 9) (vec 0 0 (-1))
                    (vec 0 1 (-2)));
               PickLight "Light 2"; PanelNumber 1 Intensity (lit 3);
               Frame (lit 1 / lit 60)%js
                 (mkControlsOutcome (vec 4 6 9) (vec 0 0 (-1))
                    (vec 0 1 (-2)))];
            vm_compute; reflexivity)
  end.
  split; [exact Hreach|].
  split; [reflexivity|]. split; [reflexivity|].
  split; [vm_compute; reflexivity|].
  exact (marker_colour_follows_light _ 1%nat _ _ Hreach eq_refl eq_refl).
Defined.

Lemma frame_after_slider_ends_in_sync :
  let o : ControlsOutcome F :=
    mkControlsOutcome (vec 4 6 9) (vec 0 0 (-1)) (vec 0 1 (-2)) in
  let es : list (Event F) :=
    [KeyDown "ArrowRight"; PickLight "Light 3"; PanelNumber 1 PosX (lit 7)] in
  ∃ s,
    run es (initialState (vec 0 0 (-1))) = Some s ∧ reachable s ∧
    ¬ synced_at s 1 ∧
    ∃ s', step (Frame (lit 1) o) s = Some s' ∧ ∀ i, synced_at s' i.
Proof.
  cbv zeta. eexists.
  split; [vm_compute; reflexivity|].
  match goal with
  | |- reachable ?s ∧ _ =>
      assert (reachable s) as Hreach
        by (exists (vec 0 0 (-1)),
              [KeyDown "ArrowRight"; PickLight "Light 3";
               PanelNumber 1 PosX (lit 7)];
            vm_compute; reflexivity)
  end.
  split; [exact Hreach|]. split.
  - intros Hsy.
    destruct (Hsy _ eq_refl) as (sp & h & Hsp & _ & Hp & _).
    injection Hsp as <-. revert Hp.
    apply vector_neq; vm_compute; reflexivity.
  - exact (every_frame_ends_in_sync (lit 1) _ _ Hreach).
Defined.

Lemma colour_edit_at_start :
  let s : State F := scene (vec 0 0 (-1)) keysIncreaseX 2 in
  let o : ControlsOutcome F :=
    mkControlsOutcome (vec 4 6 9) (vec 0 0 (-1)) (vec 0 1 (-2)) in
  ∃ s1 s2 l2 sp2 h2,
    colorChanged 1 16744448 s = Some s1 ∧ animate (lit 1) o s1 = Some s2 ∧
    lights s2 !! 1%nat = Some l2 ∧ lightSpheres s2 !! 1%nat = Some sp2 ∧
    lightHelpers s2 !! 1%nat = Some h2 ∧
    PointLight.color l2 = Color_setHex 16744448 ∧
    Mesh.material_color sp2 = Color_setHex 16744448 ∧
    PointLightHelper.material_color h2 = Color_setHex 16744448.
Proof.
  cbv zeta.
  destruct (colour_edit_reaches_light_marker_helper 1 16744448 (lit 1)
              (mkControlsOutcome (vec 4 6 9) (vec 0 0 (-1)) (vec 0 1 (-2)))
              (scene (vec 0 0 (-1)) keysIncreaseX 2 : State F)
              (PointLight.mk (vec 3 2 0) (lit 5 / lit 2)%js (lit 40) white)
              (Mesh.mk (vec 3 2 0) white))
    as (s1 & s2 & Hc & _ & _ & _ & Ha & l2 & sp2 & h2 & Hrest).
  - split; cbn; lia.
  - unfold active_in_range; cbn; lia.
  - reflexivity.
  - reflexivity.
  - exists s1, s2, l2, sp2, h2. tauto.
Defined.

Lemma idle_navigators_at_start :
  idle (keys (initialState (vec 0 0 (-1)) : State R)) ∧
  navigators_move_nothing 1 (initialState (vec 0 0 (-1)) : State R) ∧
  navigators_move_nothing PrimFloat.nan
    (initialState (vec 0 0 (-1)) : State F).
Proof.
  assert (∀ T (HT : JsNumber T),
            idle (keys (initialState (vec 0 0 (-1)) : State T))) as Hidle
    by (intros; split; reflexivity).
  assert (∀ T (HT : JsNumber T),
            rig_complete (initialState (vec 0 0 (-1)) : State T)) as Hrig
    by (intros; split; cbn; lia).
  split; [apply Hidle|]. split.
  - exact (proj1 idle_navigators_move_nothing 1 _ (Hidle _ _) (Hrig _ _)).
  - exact (proj2 idle_navigators_move_nothing PrimFloat.nan _
             (Hidle _ _) (Hrig _ _)).
Defined.

Lemma height_kept_at_start :
  let s : State R := scene (vec 3 (-2) 4) keysForwardRight 0 in
  Vector3.y (Camera.position (camera (updateCameraMovement 1 s)))
    = Vector3.y (Camera.position (camera s)).
Proof.
  cbv zeta.
  assert (reachable (scene (vec 3 (-2) 4) keysForwardRight 0 : State R))
    as Hreach.
  { exists (vec 3 (-2) 4), [KeyDown "KeyW"; KeyDown "KeyD"]. reflexivity. }
  exact (proj1 (camera_keys_keep_height 1 _ Hreach)).
Defined.

Lemma forward_along_heading :
  let s : State R := scene (vec 3 (-2) 4) keysForward 0 in
  0 < 3 * 3 + 4 * 4 ∧
  displacement 1 s =
  Vector3.multiplyScalar
    (Vector3.mk (3 / sqrt (3 * 3 + 4 * 4)) 0 (4 / sqrt (3 * 3 + 4 * 4)))
    (5 * 1).
Proof.
  cbv zeta. assert (0 < 3 * 3 + 4 * 4) as Hpos by lra.
  split; [exact Hpos|].
  apply (forward_and_right_follow_heading 1 3 (-2) 4
           (scene (vec 3 (-2) 4) keysForward 0)); try reflexivity.
  exact Hpos.
Defined.

Lemma pitch_makes_no_difference :
  let s : State R := scene (vec 0 0 (-1)) keysForwardRight 0 in
  0 < 2 ∧
  displacement 1 (turned (Vector3.mk 6 (-9) 8) s)
  = displacement 1 (turned (Vector3.mk 3 1 4) s).
Proof.
  cbv zeta. assert (0 < 2) as H2 by lra. split; [exact H2|].
  apply (translation_depends_on_heading_only 1 2); [exact H2|cbn; lra..].
Defined.

Lemma camera_speed_on_diagonal :
  let s : State R := scene (vec 3 (-2) 4) keysForwardRight 0 in
  Vector3.length (displacement 2 s) = 5 * Rabs 2.
Proof.
  cbv zeta.
  apply (camera_speed_is_constant 2 3 (-2) 4
           (scene (vec 3 (-2) 4) keysForwardRight 0)); try reflexivity.
  lra.
Defined.

Lemma framing_a_box :
  let box : Box3.t R := Box3.mk (Vector3.mk (-1) 0 (-2)) (Vector3.mk 3 1 2) in
  let o : ControlsOutcome R :=
    mkControlsOutcome (vec 4 6 9) (vec 0 0 (-1)) (vec 0 1 (-2)) in
  let s' := frameModel box (vec 0 0 (-1)) (initialState (vec 0 0 (-1))) in
  Box3.isEmpty box = false ∧
  step (ModelLoaded box (vec 0 0 (-1)) o) (initialState (vec 0 0 (-1)))
    = Some (controls_update o s') ∧
  controls_target s' = Vector3.mk ((-1 + 3) / 2) ((0 + 1) / 2) ((-2 + 2) / 2).
Proof.
  cbv zeta.
  assert (Box3.isEmpty
            (Box3.mk (Vector3.mk (-1) 0 (-2)) (Vector3.mk 3 1 2) : Box3.t R)
          = false) as Hne by (apply isEmpty_false; cbn; lra).
  split; [exact Hne|].
  destruct (loaded_model_is_framed _ (vec 0 0 (-1))
              (mkControlsOutcome (vec 4 6 9) (vec 0 0 (-1)) (vec 0 1 (-2)))
              (initialState (vec 0 0 (-1))) Hne) as (Hstep & Htg & _).
  split; [exact Hstep | exact Htg].
Defined.

Lemma framing_an_empty_box :
  let box : Box3.t R := Box3.mk (Vector3.mk 1 1 1) (Vector3.mk 0 0 0) in
  Box3.isEmpty box = true ∧
  Camera.position
    (camera (frameModel box (vec 0 0 (-1)) (initialState (vec 0 0 (-1)))))
  = Vector3.mk 0 0 0.
Proof.
  cbv zeta.
  assert (Box3.isEmpty
            (Box3.mk (Vector3.mk 1 1 1) (Vector3.mk 0 0 0) : Box3.t R)
          = true) as He by (apply isEmpty_true; cbn; lra).
  split; [exact He|].
  exact (proj1 (proj2 (proj1 empty_model_frames_origin _ (vec 0 0 (-1))
                         (mkControlsOutcome (vec 4 6 9) (vec 0 0 (-1))
                            (vec 0 1 (-2)))
                         (initialState (vec 0 0 (-1))) He))).
Defined.

Lemma sync_loop_closed_form_at_start :
  let s : State F := scene (vec 0 0 (-1)) keysIncreaseX 2 in
  rig_complete s ∧
  syncLoop s =
  Some (set_proxies s (imap (mirror_marker (lights s)) (lightSpheres s))
                      (imap (mirror_helper (lights s)) (lightHelpers s))).
Proof.
  cbv zeta.
  assert (rig_complete (scene (vec 0 0 (-1)) keysIncreaseX 2 : State F))
    as Hrig by (split; cbn; lia).
  split; [exact Hrig|]. exact (sync_loop_is_indexwise_mirror _ Hrig).
Defined.

Lemma navigators_commute_at_start :
  let s : State F := scene (vec 0 0 (-1)) keysForwardIncreaseX 2 in
  rig_complete s ∧
  updateLightMovement (lit 1) (updateCameraMovement (lit 2) s)
  = updateCameraMovement (lit 2) <$> updateLightMovement (lit 1) s.
Proof.
  cbv zeta.
  assert (rig_complete
            (scene (vec 0 0 (-1)) keysForwardIncreaseX 2 : State F))
    as Hrig by (split; cbn; lia).
  split; [exact Hrig|]. exact (navigators_commute _ _ _ Hrig).
Defined.

Lemma three_frames_as_one :
  let s : State R := scene (vec 3 (-2) 4) keysForwardIncreaseX 2 in
  let o : ControlsOutcome R :=
    mkControlsOutcome (vec 4 6 9) (vec 3 (-2) 4) (vec 0 1 (-2)) in
  let fs := [(1 / 10, o); (1 / 5, o); (7 / 10, o)] in
  let calls :=
    [(1 / 10, s); (1 / 5, controls_update o s);
     (7 / 10, controls_update o s)] in
  rig_complete s ∧
  Forall (λ c, velocity c.2 = velocity s) calls ∧
  (∃ s1 s2,
     frames fs s = Some s1 ∧ frames [(elapsed fs.*1, o)] s = Some s2 ∧
     lights s1 = lights s2 ∧ lightSpheres s1 = lightSpheres s2) ∧
  totalDisplacement calls
    = Vector3.multiplyScalar (velocity s) (elapsed calls.*1).
Proof.
  cbv zeta.
  set (s := scene (vec 3 (-2) 4) keysForwardIncreaseX 2 : State R).
  set (o := mkControlsOutcome (vec 4 6 9) (vec 3 (-2) 4) (vec 0 1 (-2))
            : ControlsOutcome R).
  assert (rig_complete s) as Hrig by (split; cbn; lia).
  assert (Forall (λ c : R * State R, velocity c.2 = velocity s)
            [(1 / 10, s); (1 / 5, controls_update o s);
             (7 / 10, controls_update o s)]) as Hall
    by (repeat constructor).
  assert ([(1 / 10, o); (1 / 5, o); (7 / 10, o)] ≠ []) as Hne
    by discriminate.
  destruct (frames_depend_on_total_time_only
              [(1 / 10, o); (1 / 5, o); (7 / 10, o)] o
              [(1 / 10, s); (1 / 5, controls_update o s);
               (7 / 10, controls_update o s)]
              (velocity s) s Hrig Hne)
    as [(s1 & s2 & H1 & H2 & _ & Hl & Hm & _) Hcalls].
  split; [exact Hrig|]. split; [exact Hall|]. split.
  - exists s1, s2. tauto.
  - exact (proj1 (Hcalls Hall)).
Defined.
End FurtherInstances.
